(** * xcltk BAF preprocessing pipeline (preprocess/baf.py)

    A shallow embedding of the pipeline orchestrator [run_baf_preprocess]
    and of its command line entry point [main], followed by the properties
    of the orchestration: which chromosomes are phased and merged, what is
    checked before which stage, and how file names are derived.

    The orchestrator is effectful Python: it reads and changes the file
    system, calls collaborators of the [xcltk] package and aborts by raising
    exceptions.  It is embedded in a state-and-exception monad over a
    [World] made of the file system, the log, and the trace of the calls
    made so far, each recorded with the file system it was made on. *)

From stdpp Require Import base tactics option list gmap strings pretty.
From Stdlib Require Import ZArith Lia Ascii.

Open Scope Z_scope.

(** ** Python strings *)

Module Py.

(** [s.startswith(pre)] *)
Definition startswith (s pre : string) : bool := String.prefix pre s.

(** [s.endswith(suf)]: some tail of [s] is [suf]. *)
Fixpoint endswith (s suf : string) : bool :=
  String.eqb s suf ||
  match s with
  | EmptyString => false
  | String _ s' => endswith s' suf
  end.

(** [sub in s] on strings: some tail of [s] starts with [sub]. *)
Fixpoint contains (sub s : string) : bool :=
  String.prefix sub s ||
  match s with
  | EmptyString => false
  | String _ s' => contains sub s'
  end.

Definition lower_ascii (c : ascii) : ascii :=
  let n := nat_of_ascii c in
  if (65 <=? n)%nat && (n <=? 90)%nat then ascii_of_nat (n + 32) else c.

(** [s.lower()] (on the ASCII letters) *)
Fixpoint lower (s : string) : string :=
  match s with
  | EmptyString => EmptyString
  | String c s' => String (lower_ascii c) (lower s')
  end.

(** [s.index(c)] as the split it is used for: [Some (s[:i], s[i+1:])] at
    the first occurrence of [c], [None] when [index] raises. *)
Fixpoint split_at (c : ascii) (s : string) : option (string * string) :=
  match s with
  | EmptyString => None
  | String a s' =>
      if Ascii.eqb a c then Some (EmptyString, s')
      else match split_at c s' with
           | Some (l, r) => Some (String a l, r)
           | None => None
           end
  end.

(** [s[:-1]] *)
Fixpoint drop_last (s : string) : string :=
  match s with
  | EmptyString => EmptyString
  | String a EmptyString => EmptyString
  | String a s' => String a (drop_last s')
  end.

(** [s[n:]] *)
Fixpoint drop (n : nat) (s : string) : string :=
  match n, s with
  | O, _ => s
  | S _, EmptyString => EmptyString
  | S n', String _ s' => drop n' s'
  end.

(** [str(i)] and ["%d" % i] for a non-negative integer. *)
Definition str (i : nat) : string := pretty i.

End Py.

(** ** os.path *)

Definition sep : string := "/".

(** [os.path.join(a, b)] of posixpath, for two components. *)
Definition os_path_join (a b : string) : string :=
  if Py.startswith b sep then b
  else if String.eqb a EmptyString || Py.endswith a sep then a +:+ b
  else a +:+ sep +:+ b.

(** ** The world the pipeline runs in *)

(** The file system, as far as the orchestrator observes it: the set of the
    paths for which [os.path.exists] answers [True]. *)
Abbreviation FS := (gset string).

(** Arguments of [pileup(...)], lines 162-173. *)
Record PileupArgs := {
  p_sam_fn : option string;
  p_sam_list_fn : option string;
  p_barcode_fn : option string;
  p_sample : option string;
  p_snp_vcf_fn : string;
  p_out_dir : string;
  p_mode : string;
  p_cell_tag : string;
  p_umi_tag : string;
  p_ncores : Z;
  p_min_maf : Z * Z;            (* 0.1, as mantissa and decimal exponent *)
  p_min_count : Z;
  p_script_fn : string;
  p_log_fn : string
}.

(** Arguments of [ref_phasing(...)], lines 231-242. *)
Record PhasingArgs := {
  target_vcf_list : list string;
  ref_vcf_list : list string;
  out_prefix_list : list string;
  ph_gmap_fn : string;
  ph_eagle_fn : string;
  ph_out_dir : string;
  ph_ncores : Z;
  ph_script_fn : string;
  ph_log_fn : string
}.

(** The calls the orchestrator makes to [os] and to its collaborators. *)
Inductive Call :=
| CAssertN (v : option string)
| CAssertE (p : option string)
| CMkdir (p : string)
| CPileup (a : PileupArgs)
| CVcfAddGenotype (in_fn out_fn sample : string) (chr_prefix sort unique : bool)
| CVcfSplitChrom (fn out_dir label : string) (chrom_list : list string)
| CVcfIndex (fn : string)
| CRefPhasing (a : PhasingArgs)
| CVcfMerge (in_fn_list : list string) (out_fn : string) (sort : bool).

Inductive LogEntry :=
| LogInfo (msg : string)
| LogError (msg : string)
| LogUsage.

Record World := {
  fs : FS;
  (** calls made so far, oldest first, each with the file system it saw *)
  trace : list (Call * FS);
  log : list LogEntry
}.

Inductive Exn :=
| OSError
| ValueError
| TypeError
| GetoptError
| SystemExit (code : Z)
| CollaboratorError.

(** One triple of the result of [vcf_split_chrom]:
    (chromosome, number of variants, path of the chromosome's VCF). *)
Abbreviation SplitRes := (list (string * Z * string)).

(** What the orchestrator does not define itself: whether the operating
    system lets a directory be made, the collaborators imported from
    [xcltk.baf.genotype] and [xcltk.utils.vcf] (their sources are not part of
    this development, so nothing is assumed of them: each is any function of
    its arguments and of the file system, returning a new file system or
    [None] when it raises), and the builtin [int] on strings. *)
Class Env := {
  os_mkdir_fails : string -> FS -> bool;
  pileup : PileupArgs -> FS -> option FS;
  vcf_add_genotype : string -> string -> string -> bool -> bool -> bool -> FS -> option FS;
  vcf_split_chrom : string -> string -> string -> list string -> FS -> option (SplitRes * FS);
  vcf_index : string -> FS -> option FS;
  ref_phasing : PhasingArgs -> FS -> option FS;
  vcf_merge : list string -> string -> bool -> FS -> option FS;
  int_of_str : string -> option Z
}.

(** ** The monad: state and exceptions *)

Definition M (A : Type) : Type := World -> (Exn + A) * World.

Definition ret {A} (a : A) : M A := fun w => (inr a, w).
Definition raise {A} (e : Exn) : M A := fun w => (inl e, w).
Definition bind {A B} (m : M A) (f : A -> M B) : M B :=
  fun w => match m w with
           | (inr a, w') => f a w'
           | (inl e, w') => (inl e, w')
           end.

#[global] Instance M_ret : MRet M := @ret.
#[global] Instance M_bind : MBind M := fun A B f m => bind m f.

(** A loop body run on each element in turn; an exception ends the loop. *)
Fixpoint for_each {A} (l : list A) (body : A -> M unit) : M unit :=
  match l with
  | [] => ret tt
  | x :: l' => bind (body x) (fun _ => for_each l' body)
  end.

(** The same with the variables the body updates threaded through. *)
Fixpoint for_fold {A S} (l : list A) (body : S -> A -> M S) (s : S) : M S :=
  match l with
  | [] => ret s
  | x :: l' => bind (body s x) (for_fold l' body)
  end.

Definition called (c : Call) : M unit :=
  fun w => (inr tt, {| fs := fs w; trace := trace w ++ [(c, fs w)]; log := log w |}).

Definition set_fs (s : FS) : M unit :=
  fun w => (inr tt, {| fs := s; trace := trace w; log := log w |}).

Definition get_fs : M FS := fun w => (inr (fs w), w).

Definition logged (e : LogEntry) : M unit :=
  fun w => (inr tt, {| fs := fs w; trace := trace w; log := log w ++ [e] |}).

Definition info (msg : string) : M unit := logged (LogInfo msg).
Definition error (msg : string) : M unit := logged (LogError msg).

(** A call of a collaborator: recorded, then run on the file system. *)
Definition collaborator (c : Call) (f : FS -> option FS) : M unit :=
  called c ;;
  s ← get_fs;
  match f s with
  | Some s' => set_fs s'
  | None => raise CollaboratorError
  end.

(** [os.path.exists(p)] *)
Definition os_path_exists (p : string) : M bool :=
  s ← get_fs; ret (bool_decide (p ∈ s)).

(** [os.mkdir(p)]: the directory exists afterwards, unless the operating
    system refuses (the path exists already, its parent does not, ...). *)
Definition os_mkdir `{Env} (p : string) : M unit :=
  called (CMkdir p) ;;
  s ← get_fs;
  if os_mkdir_fails p s then raise OSError else set_fs ({[p]} ∪ s).

(** Modelled from the spec: [assert_n] of [xcltk.utils.base], whose source is
    not part of this development.  Section 4.1: the run "fails fast ... if
    the label is unset".  An unset or empty value raises; otherwise the value
    is handed back, now known to be a string. *)
Definition assert_n (v : option string) : M string :=
  called (CAssertN v) ;;
  match v with
  | None => raise ValueError
  | Some x => if String.eqb x EmptyString then raise ValueError else ret x
  end.

(** Modelled from the spec: [assert_e] of [xcltk.utils.base], whose source is
    not part of this development.  Sections 4.1 and 7: a required path that
    is not given or "does not exist" is fatal.  Otherwise the path is handed
    back, now known to be a string. *)
Definition assert_e (p : option string) : M string :=
  called (CAssertE p) ;;
  match p with
  | None => raise OSError
  | Some x => ex ← os_path_exists x; if (ex : bool) then ret x else raise OSError
  end.

(** A path argument used where Python needs a string: [None] is a
    [TypeError] (as in [os.path.exists(None)]). *)
Definition fspath (p : option string) : M string :=
  match p with
  | None => raise TypeError
  | Some x => ret x
  end.

(** ** run_baf_preprocess (lines 120-256) *)

(** The keyword arguments of [run_baf_preprocess]; [None] is Python's. *)
Record Args := {
  label : option string;
  sam_fn : option string;
  sam_list_fn : option string;
  barcode_fn : option string;
  snp_vcf_fn : option string;
  out_dir : option string;
  gmap_fn : option string;
  eagle_fn : option string;
  panel_dir : option string;
  cell_tag : string;
  umi_tag : string;
  ncores : Z;
  mode : string
}.

(** The file names the run derives, named after the variables that hold
    them. *)

(** lines 145-146, with [chrom] an integer of [range(1, 23)] *)
Definition panel_bcf (panel_dir : string) (chrom : nat) : string :=
  os_path_join panel_dir ("chr" +:+ Py.str chrom +:+ ".genotypes.bcf").
Definition panel_csi (panel_dir : string) (chrom : nat) : string :=
  os_path_join panel_dir ("chr" +:+ Py.str chrom +:+ ".genotypes.bcf.csi").

(** line 148 *)
Definition genome (gmap_fn : string) : string :=
  if Py.contains "hg19" gmap_fn then "hg19" else "hg38".

(** lines 156, 159, 160, 175 *)
Definition pileup_dir (out_dir : string) : string := os_path_join out_dir "pileup".
Definition pileup_script (out_dir : string) : string := os_path_join out_dir "run_pileup.sh".
Definition pileup_log_fn (out_dir : string) : string := os_path_join out_dir "pileup.log".
Definition pileup_vcf_fn (out_dir : string) : string :=
  os_path_join (pileup_dir out_dir) "cellSNP.base.vcf.gz".

(** lines 183, 186, 187 *)
Definition phasing_dir (out_dir : string) : string := os_path_join out_dir "phasing".
Definition phasing_script (out_dir : string) : string := os_path_join out_dir "run_phasing.sh".
Definition phasing_log_fn (out_dir : string) : string := os_path_join out_dir "phasing.log".

(** line 192 *)
Definition genotype_vcf_fn (out_dir label : string) : string :=
  os_path_join out_dir (label +:+ ".genotype.vcf.gz").

(** line 211: [["chr" + str(i) for i in range(1, 23)]] *)
Definition chrom_list : list string :=
  map (fun i => "chr" +:+ Py.str i) (seq 1 22).

(** lines 227-228, one element *)
Definition ref_vcf (panel_dir chrom : string) : string :=
  os_path_join panel_dir (chrom +:+ ".genotypes.bcf").

(** lines 229-230, one element *)
Definition out_prefix (out_dir label chrom : string) : string :=
  os_path_join (phasing_dir out_dir) (label +:+ "_" +:+ chrom +:+ ".phased").

(** line 249, one element *)
Definition phased_vcf (prefix : string) : string := prefix +:+ ".vcf.gz".

(** line 253 *)
Definition phased_vcf_fn (out_dir label : string) : string :=
  os_path_join out_dir (label +:+ ".phased.vcf.gz").

Section Pipeline.
Context `{Env}.

(** lines 144-146 *)
Definition check_panel (panel_dir : string) : M unit :=
  for_each (seq 1 22) (fun chrom =>
    assert_e (Some (panel_bcf panel_dir chrom)) ;;
    assert_e (Some (panel_csi panel_dir chrom)) ;;
    ret tt).

(** lines 215-219: the body of the loop over the triples of [res]; the
    state is [(valid_chroms, target_vcf_list)]. *)
Definition retain (st : list string * list string) (r : string * Z * string)
  : M (list string * list string) :=
  let '(valid_chroms, target_vcf_list) := st in
  let '(chrom, n_variants, vcf_fn) := r in
  if (0 <? n_variants)%Z then
    let valid_chroms := valid_chroms ++ [chrom] in
    let target_vcf_list := target_vcf_list ++ [vcf_fn] in
    collaborator (CVcfIndex vcf_fn) (vcf_index vcf_fn) ;;
    ret (valid_chroms, target_vcf_list)
  else ret (valid_chroms, target_vcf_list).

(** The call of [vcf_split_chrom], lines 207-214, which also returns. *)
Definition split_chrom (fn out_dir label : string) (chroms : list string)
  : M SplitRes :=
  called (CVcfSplitChrom fn out_dir label chroms) ;;
  s ← get_fs;
  match vcf_split_chrom fn out_dir label chroms s with
  | Some (res, s') => set_fs s' ;; ret res
  | None => raise CollaboratorError
  end.

Definition run_baf_preprocess (a : Args) : M unit :=
  info "xcltk BAF preprocessing starts ..." ;;

  (* check args *)
  info "check args ..." ;;
  label ← assert_n (label a);
  let sample := if String.eqb (mode a) "bulk" then Some label else None in
  snp_vcf_fn ← assert_e (snp_vcf_fn a);
  out_dir ← fspath (out_dir a);
  ex ← os_path_exists out_dir;
  (if (ex : bool) then ret tt else os_mkdir out_dir) ;;

  gmap_fn ← assert_e (gmap_fn a);
  eagle_fn ← assert_e (eagle_fn a);
  panel_dir ← assert_e (panel_dir a);
  check_panel panel_dir ;;

  let genome := genome gmap_fn in
  info ("run in '" +:+ mode a +:+ "' mode (genome version '" +:+ genome +:+ "')") ;;

  (* pileup *)
  info "start pileup ..." ;;
  ex ← os_path_exists (pileup_dir out_dir);
  (if (ex : bool) then ret tt else os_mkdir (pileup_dir out_dir)) ;;
  let pa := {| p_sam_fn := sam_fn a; p_sam_list_fn := sam_list_fn a;
               p_barcode_fn := barcode_fn a; p_sample := sample;
               p_snp_vcf_fn := snp_vcf_fn;
               p_out_dir := pileup_dir out_dir;
               p_mode := mode a;
               p_cell_tag := cell_tag a; p_umi_tag := umi_tag a;
               p_ncores := ncores a;
               p_min_maf := (1, -1); p_min_count := 20;
               p_script_fn := pileup_script out_dir;
               p_log_fn := pileup_log_fn out_dir |} in
  collaborator (CPileup pa) (pileup pa) ;;
  assert_e (Some (pileup_vcf_fn out_dir)) ;;
  info ("pileup VCF is '" +:+ pileup_vcf_fn out_dir +:+ "'.") ;;

  (* prepare VCF files for phasing *)
  info "prepare VCF files for phasing ..." ;;
  ex ← os_path_exists (phasing_dir out_dir);
  (if (ex : bool) then ret tt else os_mkdir (phasing_dir out_dir)) ;;

  (* add genotypes *)
  info "add genotypes ..." ;;
  let genotype_vcf_fn := genotype_vcf_fn out_dir label in
  collaborator
    (CVcfAddGenotype (pileup_vcf_fn out_dir) genotype_vcf_fn label true true true)
    (vcf_add_genotype (pileup_vcf_fn out_dir) genotype_vcf_fn label true true true) ;;

  (* split VCF by chromosomes *)
  info "split VCF by chromosomes ..." ;;
  res ← split_chrom genotype_vcf_fn (phasing_dir out_dir) label chrom_list;
  '(valid_chroms, target_vcf_list) ← for_fold res retain ([], []);
  info (Py.str (length valid_chroms) +:+ " chromosome VCFs are outputted with variants.") ;;

  (* reference phasing *)
  info "reference phasing ..." ;;
  let ref_vcf_list := map (ref_vcf panel_dir) valid_chroms in
  let out_prefix_list := map (out_prefix out_dir label) valid_chroms in
  let ph := {| target_vcf_list := target_vcf_list;
               ref_vcf_list := ref_vcf_list;
               out_prefix_list := out_prefix_list;
               ph_gmap_fn := gmap_fn; ph_eagle_fn := eagle_fn;
               ph_out_dir := phasing_dir out_dir;
               ph_ncores := ncores a;
               ph_script_fn := phasing_script out_dir;
               ph_log_fn := phasing_log_fn out_dir |} in
  collaborator (CRefPhasing ph) (ref_phasing ph) ;;
  info ("phased VCFs are in dir '" +:+ phasing_dir out_dir +:+ "'.") ;;

  (* merge phased VCFs *)
  info "merge phased VCFs ..." ;;
  let phased_vcf_list := map phased_vcf out_prefix_list in
  for_each phased_vcf_list (fun fn => assert_e (Some fn) ;; ret tt) ;;
  let phased_vcf_fn := phased_vcf_fn out_dir label in
  collaborator (CVcfMerge phased_vcf_list phased_vcf_fn true)
               (vcf_merge phased_vcf_list phased_vcf_fn true) ;;
  info ("merged VCF is '" +:+ phased_vcf_fn +:+ "'.").

End Pipeline.

(** ** getopt.getopt, as [main] calls it *)

Module Getopt.

(** [long_has_args(opt, longopts)] *)
Definition long_has_args (opt : string) (longopts : list string)
  : Exn + (bool * string) :=
  let possibilities := List.filter (fun o => Py.startswith o opt) longopts in
  match possibilities with
  | [] => inl GetoptError                     (* not recognized *)
  | _ =>
      if bool_decide (opt ∈ possibilities) then inr (false, opt)
      else if bool_decide (opt +:+ "=" ∈ possibilities) then inr (true, opt)
      else match possibilities with
           | [unique_match] =>
               let has_arg := Py.endswith unique_match "=" in
               inr (has_arg,
                    if has_arg then Py.drop_last unique_match else unique_match)
           | _ => inl GetoptError             (* not a unique prefix *)
           end
  end.

(** The loop of [getopt]; [do_longs] is written out in it, so that the
    recursion is on the arguments left.  [main] passes [shortopts = ""], for
    which [do_shorts] raises on its first character: an argument that starts
    with one dash (and is not ["-"]) holds at least one character after it,
    and [short_has_arg] finds no short option to match. *)
Fixpoint loop (longopts : list string) (opts : list (string * string))
  (args : list string) {struct args}
  : Exn + (list (string * string) * list string) :=
  match args with
  | [] => inr (opts, [])
  | a0 :: args' =>
      if Py.startswith a0 "-" && negb (String.eqb a0 "-") then
        if String.eqb a0 "--" then inr (opts, args')
        else if Py.startswith a0 "--" then
          (* do_longs(opts, args[0][2:], longopts, args[1:]) *)
          let '(opt, optarg) :=
            match Py.split_at "=" (Py.drop 2 a0) with
            | Some (o, v) => (o, Some v)
            | None => (Py.drop 2 a0, None)
            end in
          match long_has_args opt longopts with
          | inl e => inl e
          | inr (true, opt) =>
              match optarg with
              | Some v => loop longopts (opts ++ [("--" +:+ opt, v)]) args'
              | None =>
                  match args' with
                  | [] => inl GetoptError     (* requires argument *)
                  | v :: args'' => loop longopts (opts ++ [("--" +:+ opt, v)]) args''
                  end
              end
          | inr (false, opt) =>
              match optarg with
              | Some _ => inl GetoptError     (* must not have an argument *)
              | None => loop longopts (opts ++ [("--" +:+ opt, EmptyString)]) args'
              end
          end
        else inl GetoptError                  (* do_shorts *)
      else inr (opts, args)
  end.

Definition getopt (args : list string) (longopts : list string)
  : Exn + (list (string * string) * list string) :=
  loop longopts [] args.

End Getopt.

(** ** main (lines 50-117) and the script body (lines 270-271) *)

Definition APP : string := "baf.py".
Definition VERSION : string := "0.0.1".
Definition CELL_TAG : string := "CB".
Definition N_CORES : Z := 1.
Definition UMI_TAG : string := "UB".

(** lines 68-78 *)
Definition longopts : list string :=
  [ "label=";
    "sam="; "samlist="; "barcode="; "snpvcf=";
    "outdir=";
    "gmap="; "eagle="; "paneldir=";
    "version"; "help";
    "cellTAG="; "UMItag=";
    "ncores=";
    "smartseq"; "bulk" ].

(** lines 57-63: the local variables of [main] before the options are read *)
Definition defaults : Args :=
  {| label := None;
     sam_fn := None; sam_list_fn := None; barcode_fn := None; snp_vcf_fn := None;
     out_dir := None;
     gmap_fn := None; eagle_fn := None; panel_dir := None;
     cell_tag := CELL_TAG; umi_tag := UMI_TAG;
     ncores := N_CORES;
     mode := "10x" |}.

(** An assignment to one local variable of [main]. *)
Inductive Var :=
| v_label | v_sam_fn | v_sam_list_fn | v_barcode_fn | v_snp_vcf_fn | v_out_dir
| v_gmap_fn | v_eagle_fn | v_panel_dir.

Definition assign (x : Var) (val : string) (a : Args) : Args :=
  let pick y old := match x, y with
                    | v_label, v_label | v_sam_fn, v_sam_fn
                    | v_sam_list_fn, v_sam_list_fn | v_barcode_fn, v_barcode_fn
                    | v_snp_vcf_fn, v_snp_vcf_fn | v_out_dir, v_out_dir
                    | v_gmap_fn, v_gmap_fn | v_eagle_fn, v_eagle_fn
                    | v_panel_dir, v_panel_dir => Some val
                    | _, _ => old
                    end in
  {| label := pick v_label (label a);
     sam_fn := pick v_sam_fn (sam_fn a);
     sam_list_fn := pick v_sam_list_fn (sam_list_fn a);
     barcode_fn := pick v_barcode_fn (barcode_fn a);
     snp_vcf_fn := pick v_snp_vcf_fn (snp_vcf_fn a);
     out_dir := pick v_out_dir (out_dir a);
     gmap_fn := pick v_gmap_fn (gmap_fn a);
     eagle_fn := pick v_eagle_fn (eagle_fn a);
     panel_dir := pick v_panel_dir (panel_dir a);
     cell_tag := cell_tag a; umi_tag := umi_tag a;
     ncores := ncores a; mode := mode a |}.

Definition assign_tags (cell umi : string) (n : Z) (m : string) (a : Args) : Args :=
  {| label := label a;
     sam_fn := sam_fn a; sam_list_fn := sam_list_fn a;
     barcode_fn := barcode_fn a; snp_vcf_fn := snp_vcf_fn a;
     out_dir := out_dir a;
     gmap_fn := gmap_fn a; eagle_fn := eagle_fn a; panel_dir := panel_dir a;
     cell_tag := cell; umi_tag := umi; ncores := n; mode := m |}.

(** How one turn of the loop over the options ends: with the variables
    updated, or with [return(v)] out of [main]. *)
Inductive Flow :=
| Continue (a : Args)
| Return (v : Z).

(** [sys.exit(code)] *)
Definition sys_exit {A} (code : Z) : M A := raise (SystemExit code).

(** [usage()], lines 14-47: the text goes to standard output. *)
Definition usage : M unit := logged LogUsage.

Section Main.
Context `{Env}.

(** lines 81-102.  The tests [op in ("--label")] are on a string, not a
    tuple: each holds when [op] occurs in the text on the right. *)
Definition set_opt (a : Args) (o : string * string) : M Flow :=
  let '(op, val) := o in
  let op := if (2 <? String.length op)%nat then Py.lower op else op in
  if Py.contains op "--label" then ret (Continue (assign v_label val a))
  else if Py.contains op "--sam" then ret (Continue (assign v_sam_fn val a))
  else if Py.contains op "--samlist" then ret (Continue (assign v_sam_list_fn val a))
  else if Py.contains op "--barcode" then ret (Continue (assign v_barcode_fn val a))
  else if Py.contains op "--snpvcf" then ret (Continue (assign v_snp_vcf_fn val a))
  else if Py.contains op "--outdir" then ret (Continue (assign v_out_dir val a))
  else if Py.contains op "--gmap" then ret (Continue (assign v_gmap_fn val a))
  else if Py.contains op "--eagle" then ret (Continue (assign v_eagle_fn val a))
  else if Py.contains op "--paneldir" then ret (Continue (assign v_panel_dir val a))
  else if Py.contains op "--version" then error VERSION ;; sys_exit 1
  else if Py.contains op "--help" then usage ;; sys_exit 1

  else if Py.contains op "--celltag" then
    ret (Continue (assign_tags val (umi_tag a) (ncores a) (mode a) a))
  else if Py.contains op "--umitag" then
    ret (Continue (assign_tags (cell_tag a) val (ncores a) (mode a) a))
  else if Py.contains op "--ncores" then
    match int_of_str val with
    | Some n => ret (Continue (assign_tags (cell_tag a) (umi_tag a) n (mode a) a))
    | None => raise ValueError
    end
  else if Py.contains op "--smartseq" then
    ret (Continue (assign_tags (cell_tag a) (umi_tag a) (ncores a) "smartseq" a))
  else if Py.contains op "--bulk" then
    ret (Continue (assign_tags (cell_tag a) (umi_tag a) (ncores a) "bulk" a))
  else
    error ("invalid option: '" +:+ op +:+ "'.") ;;
    ret (Return (-1)).

(** lines 80-102: the loop, left at the first [return] *)
Fixpoint set_opts (opts : list (string * string)) (a : Args) : M Flow :=
  match opts with
  | [] => ret (Continue a)
  | o :: opts' =>
      f ← set_opt a o;
      match f with
      | Continue a' => set_opts opts' a'
      | Return v => ret (Return v)
      end
  end.

(** [main(argv)]; the value is what [main] returns, [None] being Python's.
    [init_logging] (line 55) only configures the logger. *)
Definition main (argv : list string) : M (option Z) :=
  (if (length argv <? 2)%nat then usage ;; sys_exit 1 else ret tt) ;;
  '(opts, args) ← (match Getopt.getopt (tail argv) longopts with
                   | inl e => raise e
                   | inr r => ret r
                   end);
  f ← set_opts opts defaults;
  match f with
  | Return v => ret (Some v)
  | Continue a =>
      run_baf_preprocess a ;;        (* ret = None: no return statement *)
      info "All Done!" ;;
      ret None
  end.


End Main.

(** The exit status of the interpreter for an outcome of [script]: the code
    of [sys.exit], 1 for any other uncaught exception, 0 otherwise. *)
Definition exit_status {A} (r : Exn + A) : Z :=
  match r with
  | inl (SystemExit code) => code
  | inl _ => 1
  | inr _ => 0
  end.

(** * Definitions for the statements *)

(** Strings are reasoned about as the lists of their characters. *)
Abbreviation chars := String.list_ascii_of_string.

(** The directory part that [os.path.join] puts before a relative name. *)
Definition dir_prefix (a : string) : string :=
  if String.eqb a EmptyString || Py.endswith a sep then a else a +:+ sep.

(** A world with nothing done yet on the file system [s]. *)
Definition boot (s : FS) : World := {| fs := s; trace := []; log := [] |}.

(** [wp m Q w]: running [m] from [w] ends in an outcome and a world that
    satisfy [Q].  Every [m] ends: the monad is a total function. *)
Definition wp {A} (m : M A) (Q : Exn + A -> World -> Prop) (w : World) : Prop :=
  Q (m w).1 (m w).2.

Definition after_call (c : Call) (w : World) : World :=
  {| fs := fs w; trace := trace w ++ [(c, fs w)]; log := log w |}.

Definition with_trace (tr : list (Call * FS)) (w : World) : World :=
  {| fs := fs w; trace := trace w ++ tr; log := log w |}.

(** The calls of [if not os.path.exists(p): os.mkdir(p)] that succeed. *)
Definition mkdir_calls (p : string) (s : FS) : list (Call * FS) :=
  if bool_decide (p ∈ s) then [] else [(CMkdir p, s)].

(** The calls of a loop of [assert_e] over [ps] that all succeed. *)
Definition assert_calls (ps : list string) (s : FS) : list (Call * FS) :=
  map (fun p => (CAssertE (Some p), s)) ps.

(** The paths that [check_panel] asserts, in order. *)
Definition panel_files (panel_dir : string) : list string :=
  flat_map (fun chrom => [panel_bcf panel_dir chrom; panel_csi panel_dir chrom])
           (seq 1 22).

(** What lines 215-219 keep of [res]. *)
Definition retained (res : SplitRes) : SplitRes :=
  List.filter (fun r => (0 <? r.1.2)%Z) res.

Definition valid_chroms_of (res : SplitRes) : list string :=
  map (fun r => r.1.1) (retained res).

Definition target_vcf_list_of (res : SplitRes) : list string :=
  map (fun r => r.2) (retained res).

(** Modelled from the spec: [vcf_split_chrom] of [xcltk.utils.vcf] is not
    among the sources.  Section 4.4: it "returns, for each target chromosome,
    a triple (chromosome id, variant count, output VCF path)": one triple for
    each chromosome asked for, in the order asked. *)
Definition split_contract (chroms : list string) (res : SplitRes) : Prop :=
  map (fun r => r.1.1) res = chroms.

(** The calls of the preflight checks. *)
Definition is_check (e : Call * FS) (a : Args) : Prop :=
  match e.1 with
  | CAssertN _ | CAssertE _ => True
  | CMkdir d => out_dir a = Some d
  | _ => False
  end.

(** What the checks of lines 141-146 ask of the file system. *)
Definition panel_ready (a : Args) (s : FS) : Prop :=
  exists gmap eagle pd,
    gmap_fn a = Some gmap /\ gmap ∈ s /\
    eagle_fn a = Some eagle /\ eagle ∈ s /\
    panel_dir a = Some pd /\ pd ∈ s /\
    Forall (fun p => p ∈ s) (panel_files pd).

Definition is_phasing (e : Call * FS) : Prop :=
  match e.1 with CRefPhasing _ => True | _ => False end.

Definition is_pileup (e : Call * FS) : Prop :=
  match e.1 with CPileup _ => True | _ => False end.

(** A label that is a plain file name: no directory separator in it. *)
Definition plain_label (lb : string) : Prop := Py.contains sep lb = false.

(** The files of a run whose names are derived from its label. *)
Definition label_paths (out lb : string) : list string :=
  genotype_vcf_fn out lb :: phased_vcf_fn out lb ::
  map (fun c => phased_vcf (out_prefix out lb c)) chrom_list.

(** The option names [getopt] can hand to the loop of [main]. *)
Definition option_names : list string :=
  map (fun o => "--" +:+ (if Py.endswith o "=" then Py.drop_last o else o)) longopts.

Definition known_opts (opts : list (string * string)) : Prop :=
  Forall (fun o => o.1 ∈ option_names) opts.

(** A call that went well: the check passed, the directory was made, the
    collaborator returned. *)
Definition call_ok `{Env} (e : Call * FS) : Prop :=
  match e.1 with
  | CAssertN v => v <> None /\ v <> Some EmptyString
  | CAssertE p => exists x, p = Some x /\ x ∈ e.2
  | CMkdir p => os_mkdir_fails p e.2 = false
  | CPileup pa => is_Some (pileup pa e.2)
  | CVcfAddGenotype i o smp c srt u => is_Some (vcf_add_genotype i o smp c srt u e.2)
  | CVcfSplitChrom fn od lb cl => is_Some (vcf_split_chrom fn od lb cl e.2)
  | CVcfIndex fn => is_Some (vcf_index fn e.2)
  | CRefPhasing ph => is_Some (ref_phasing ph e.2)
  | CVcfMerge l o b => is_Some (vcf_merge l o b e.2)
  end.

(** The pipeline ran to its end: every call it made went well, and the last
    one is the merge of phased files that all exist, into the file named
    after the label, leaving the file system [s']. *)
Definition completed `{Env} (tr : list (Call * FS)) (s' : FS) : Prop :=
  Forall call_ok tr /\
  exists l out lb sm,
    last tr = Some (CVcfMerge l (phased_vcf_fn out lb) true, sm) /\
    Forall (fun p => p ∈ sm) l /\
    vcf_merge l (phased_vcf_fn out lb) true sm = Some s'.



(** The kind of a call, for statements about concrete traces. *)
Inductive Kind :=
| KAssertN | KAssertE | KMkdir | KPileup | KVcfAddGenotype | KVcfSplitChrom
| KVcfIndex | KRefPhasing | KVcfMerge.

#[global] Instance Kind_eq_dec : EqDecision Kind.
Proof. solve_decision. Defined.

Definition kind_of (c : Call) : Kind :=
  match c with
  | CAssertN _ => KAssertN
  | CAssertE _ => KAssertE
  | CMkdir _ => KMkdir
  | CPileup _ => KPileup
  | CVcfAddGenotype _ _ _ _ _ _ => KVcfAddGenotype
  | CVcfSplitChrom _ _ _ _ => KVcfSplitChrom
  | CVcfIndex _ => KVcfIndex
  | CRefPhasing _ => KRefPhasing
  | CVcfMerge _ _ _ => KVcfMerge
  end.

Definition kinds (tr : list (Call * FS)) : list Kind := map (fun e => kind_of e.1) tr.

#[global] Instance PileupArgs_eq_dec : EqDecision PileupArgs.
Proof. solve_decision. Defined.

#[global] Instance PhasingArgs_eq_dec : EqDecision PhasingArgs.
Proof. solve_decision. Defined.

#[global] Instance Call_eq_dec : EqDecision Call.
Proof. solve_decision. Defined.

Module Demo.

(** Variants are found on chr1 and chr5 only. *)
Definition variants (c : string) : Z :=
  if String.eqb c "chr1" then 3 else if String.eqb c "chr5" then 2 else 0.

Definition split_vcf (od lb c : string) : string :=
  os_path_join od (lb +:+ "_" +:+ c +:+ ".vcf.gz").

(** Collaborators that do what the spec says of them, on any input. *)
Definition nominal : Env := {|
  os_mkdir_fails p s := bool_decide (p ∈ s);
  pileup a s := Some ({[os_path_join (p_out_dir a) "cellSNP.base.vcf.gz"]} ∪ s);
  vcf_add_genotype i o smp _ _ _ s := Some ({[o]} ∪ s);
  vcf_split_chrom fn od lb chroms s :=
    Some (map (fun c => (c, variants c, split_vcf od lb c)) chroms,
          list_to_set (map (split_vcf od lb) chroms) ∪ s);
  vcf_index fn s := Some ({[fn +:+ ".csi"]} ∪ s);
  ref_phasing a s := Some (list_to_set (map phased_vcf (out_prefix_list a)) ∪ s);
  vcf_merge l o _ s := Some ({[o]} ∪ s);
  int_of_str v := Some 1
|}.

(** The same, but phasing writes nothing for chr5. *)
Definition chr5_fails : Env := {|
  os_mkdir_fails := @os_mkdir_fails nominal;
  pileup := @pileup nominal;
  vcf_add_genotype := @vcf_add_genotype nominal;
  vcf_split_chrom := @vcf_split_chrom nominal;
  vcf_index := @vcf_index nominal;
  ref_phasing a s :=
    Some (list_to_set
            (map phased_vcf
               (List.filter (fun p => negb (Py.contains "chr5" p)) (out_prefix_list a)))
          ∪ s);
  vcf_merge := @vcf_merge nominal;
  int_of_str := @int_of_str nominal
|}.

Definition inputs : list string :=
  ["in/snp.vcf"; "in/gmap_hg38.txt.gz"; "in/eagle"; "panel"] ++ panel_files "panel".

Definition fs0 : FS := list_to_set inputs.


Definition args : Args :=
  {| label := Some "s1";
     sam_fn := Some "in/a.bam"; sam_list_fn := None;
     barcode_fn := Some "in/barcodes.tsv";
     snp_vcf_fn := Some "in/snp.vcf";
     out_dir := Some "out";
     gmap_fn := Some "in/gmap_hg38.txt.gz";
     eagle_fn := Some "in/eagle";
     panel_dir := Some "panel";
     cell_tag := CELL_TAG; umi_tag := UMI_TAG; ncores := N_CORES;
     mode := "10x" |}.

(** No alignment input and no barcode list at all. *)
Definition args_no_sam : Args :=
  {| label := Some "s1";
     sam_fn := None; sam_list_fn := None;
     barcode_fn := None;
     snp_vcf_fn := Some "in/snp.vcf";
     out_dir := Some "out";
     gmap_fn := Some "in/gmap_hg38.txt.gz";
     eagle_fn := Some "in/eagle";
     panel_dir := Some "panel";
     cell_tag := CELL_TAG; umi_tag := UMI_TAG; ncores := N_CORES;
     mode := "10x" |}.


Definition argv : list string :=
  ["baf.py"; "--label"; "s1"; "--sam"; "in/a.bam"; "--barcode=in/barcodes.tsv";
   "--snpvcf"; "in/snp.vcf"; "--outdir"; "out"; "--gmap"; "in/gmap_hg38.txt.gz";
   "--eagle"; "in/eagle"; "--paneldir"; "panel"].

End Demo.

(** The file system the [k]-th call of a trace was made on. *)
Definition snapshot (tr : list (Call * FS)) (k : nat) : FS :=
  match tr !! k with
  | Some e => e.2
  | None => ∅
  end.

Module DemoRun.
(** The nominal run of the pipeline, and what it passes to [ref_phasing]. *)
Definition tr : list (Call * FS) :=
  trace (@run_baf_preprocess Demo.nominal Demo.args (boot Demo.fs0)).2.

Definition ph : PhasingArgs :=
  {| target_vcf_list := ["out/phasing/s1_chr1.vcf.gz"; "out/phasing/s1_chr5.vcf.gz"];
     ref_vcf_list := ["panel/chr1.genotypes.bcf"; "panel/chr5.genotypes.bcf"];
     out_prefix_list := ["out/phasing/s1_chr1.phased"; "out/phasing/s1_chr5.phased"];
     ph_gmap_fn := "in/gmap_hg38.txt.gz";
     ph_eagle_fn := "in/eagle";
     ph_out_dir := "out/phasing";
     ph_ncores := 1;
     ph_script_fn := "out/run_phasing.sh";
     ph_log_fn := "out/phasing.log" |}.

(** The same run when phasing leaves no output for chr5. *)
Definition tr_chr5 : list (Call * FS) :=
  trace (@run_baf_preprocess Demo.chr5_fails Demo.args (boot Demo.fs0)).2.
End DemoRun.

(** * More definitions: traces, options, the toolkit's command line *)

(** The stages among the calls of a trace: everything but checks and
    [os.mkdir]. *)
Definition is_stage (k : Kind) : bool :=
  match k with
  | KAssertN | KAssertE | KMkdir => false
  | _ => true
  end.

Definition stage_kinds (tr : list (Call * FS)) : list Kind :=
  List.filter is_stage (kinds tr).

(** The stages of a run that indexes [n] files, in the order of the code. *)
Definition stages_of (n : nat) : list Kind :=
  [KPileup; KVcfAddGenotype; KVcfSplitChrom] ++ replicate n KVcfIndex
    ++ [KRefPhasing; KVcfMerge].


(** A command line for given arguments: an option and its value for each
    variable that is set, the tags and the number of cores always, the flag
    of the mode when it is not the default. *)
Definition opt_args (name : string) (v : option string) : list string :=
  match v with
  | Some x => [name; x]
  | None => []
  end.

Definition mode_args (m : string) : list string :=
  if String.eqb m "smartseq" then ["--smartseq"]
  else if String.eqb m "bulk" then ["--bulk"]
  else [].

Definition argv_of (prog : string) (a : Args) (n : string) : list string :=
  prog ::
  ["--cellTAG"; cell_tag a; "--UMItag"; umi_tag a; "--ncores"; n] ++
  opt_args "--label" (label a) ++
  opt_args "--sam" (sam_fn a) ++
  opt_args "--samlist" (sam_list_fn a) ++
  opt_args "--barcode" (barcode_fn a) ++
  opt_args "--snpvcf" (snp_vcf_fn a) ++
  opt_args "--outdir" (out_dir a) ++
  opt_args "--gmap" (gmap_fn a) ++
  opt_args "--eagle" (eagle_fn a) ++
  opt_args "--paneldir" (panel_dir a) ++
  mode_args (mode a).

(** What [getopt] makes of [opt_args]. *)
Definition opt_pairs (name : string) (v : option string) : list (string * string) :=
  match v with
  | Some x => [(name, x)]
  | None => []
  end.

(** The variable of [main] that an option with a path or a label sets. *)
Definition var_options : list (Var * string) :=
  [(v_label, "--label"); (v_sam_fn, "--sam"); (v_sam_list_fn, "--samlist");
   (v_barcode_fn, "--barcode"); (v_snp_vcf_fn, "--snpvcf"); (v_out_dir, "--outdir");
   (v_gmap_fn, "--gmap"); (v_eagle_fn, "--eagle"); (v_panel_dir, "--paneldir")].

(** Reading and writing one of these variables. *)
Definition get_var (x : Var) (a : Args) : option string :=
  match x with
  | v_label => label a
  | v_sam_fn => sam_fn a
  | v_sam_list_fn => sam_list_fn a
  | v_barcode_fn => barcode_fn a
  | v_snp_vcf_fn => snp_vcf_fn a
  | v_out_dir => out_dir a
  | v_gmap_fn => gmap_fn a
  | v_eagle_fn => eagle_fn a
  | v_panel_dir => panel_dir a
  end.

Definition put_var (x : Var) (v : option string) (a : Args) : Args :=
  match v with
  | Some y => assign x y a
  | None => a
  end.

(** The value given with the last occurrence of an option. *)
Definition last_value (name : string) (opts : list (string * string)) : option string :=
  last (map snd (List.filter (fun o => String.eqb o.1 name) opts)).

(** The mode that the last of the flags [--smartseq] and [--bulk] selects. *)
Definition flag_mode (name : string) : option string :=
  if String.eqb name "--smartseq" then Some "smartseq"
  else if String.eqb name "--bulk" then Some "bulk"
  else None.

Definition last_mode (opts : list (string * string)) : option string :=
  last (omap (fun o => flag_mode o.1) opts).


(** ** The command line of the toolkit (xcltk/xcltk.py) *)

Module Xcltk.

(** The sub-commands; each is the [main] of a module of its own. *)
Inductive Command := allelefc | baf | fixref | rpc | basefc | convert.

(** What is not defined in xcltk.py: the name and the version of the
    program, imported from [.config], and the sub-commands, each any function
    of the arguments and of what standard error holds, that returns or
    raises. *)
Class Toolkit := {
  APP : string;
  VERSION : string;
  run_command : Command -> list string -> list string -> (Exn + unit) * list string
}.

(** What the command line has done: the texts written to standard error,
    and the sub-commands started, each with the arguments handed to it. *)
Record State := {
  stderr : list string;
  started : list (Command * list string)
}.

Definition nl : string := String "010"%char EmptyString.

Section Cli.
Context `{Toolkit}.

(** [__usage(fp)], lines 17-41: the text written. *)
Definition usage_msg : string :=
  nl +:+
  "Program: " +:+ APP +:+ " (Toolkit for XClone)" +:+ nl +:+
  "Version: " +:+ VERSION +:+ nl +:+
  nl +:+
  "Usage:   " +:+ APP +:+ " <command> [options]" +:+ nl +:+
  nl +:+
  "Commands:" +:+ nl +:+
  "  -- BAF calculation" +:+ nl +:+
  "     allelefc         Allele counting for each feature." +:+ nl +:+
  "     baf              Preprocessing pipeline for XClone BAF." +:+ nl +:+
  "     fixref           Fix REF, ALT and GT." +:+ nl +:+
  "     rpc              Reference phasing correction." +:+ nl +:+
  nl +:+
  "  -- RDR calculation" +:+ nl +:+
  "     basefc           Basic feature counting." +:+ nl +:+
  nl +:+
  "  -- Tools" +:+ nl +:+
  "     convert          Convert different region file formats." +:+ nl +:+
  nl +:+
  "  -- Others" +:+ nl +:+
  "     -h, --help       Print this message and exit." +:+ nl +:+
  "     -V, --version    Print version and exit." +:+ nl +:+
  nl.

(** [fp.write(msg)] with [fp] standard error *)
Definition write (msg : string) (st : State) : State :=
  {| stderr := stderr st ++ [msg]; started := started st |}.

(** A call [sub_main(sys.argv)] of a sub-command. *)
Definition start (c : Command) (argv : list string) (st : State)
  : (Exn + unit) * State :=
  let '(r, err) := run_command c argv (stderr st) in
  (r, {| stderr := err; started := started st ++ [(c, argv)] |}).

(** [main()], lines 44-59, with [sys.argv] as [argv]. *)
Definition main (argv : list string) (st : State) : (Exn + unit) * State :=
  let argc := length argv in
  if (argc <? 2)%nat then
    (inl (SystemExit 1), write usage_msg st)
  else
    let command := nth 1 argv EmptyString in
    if String.eqb command "allelefc" then start allelefc argv st
    else if String.eqb command "baf" then start baf argv st
    else if String.eqb command "fixref" then start fixref argv st
    else if String.eqb command "rpc" then start rpc argv st
    else if String.eqb command "basefc" then start basefc argv st
    else if String.eqb command "convert" then start convert argv st
    else if String.eqb command "-h" || String.eqb command "--help" then
      (inl (SystemExit 3), write usage_msg st)
    else if String.eqb command "-V" || String.eqb command "--version" then
      (inl (SystemExit 3), write (VERSION +:+ nl) st)
    else
      (inl (SystemExit 5), write ("Error: wrong command '" +:+ command +:+ "'" +:+ nl) st).

End Cli.

(** The word that selects a sub-command. *)
Definition word (c : Command) : string :=
  match c with
  | allelefc => "allelefc"
  | baf => "baf"
  | fixref => "fixref"
  | rpc => "rpc"
  | basefc => "basefc"
  | convert => "convert"
  end.

End Xcltk.

Module Sample.

(** Collaborators as in [Demo.nominal], on a genotype VCF without any
    variant on chr1..chr22. *)
Definition no_variants : Env := {|
  os_mkdir_fails := @os_mkdir_fails Demo.nominal;
  pileup := @pileup Demo.nominal;
  vcf_add_genotype := @vcf_add_genotype Demo.nominal;
  vcf_split_chrom fn od lb chroms s :=
    Some (map (fun c => (c, 0, Demo.split_vcf od lb c)) chroms,
          list_to_set (map (Demo.split_vcf od lb) chroms) ∪ s);
  vcf_index := @vcf_index Demo.nominal;
  ref_phasing := @ref_phasing Demo.nominal;
  vcf_merge := @vcf_merge Demo.nominal;
  int_of_str := @int_of_str Demo.nominal
|}.

(** Its run, on the inputs of [Demo]. *)
Definition tr_no_variants : list (Call * FS) :=
  trace (@run_baf_preprocess no_variants Demo.args (boot Demo.fs0)).2.

(** A command line that asks for help after a label. *)
Definition argv_help : list string := ["baf.py"; "--label"; "s1"; "--help"].

(** Options in which the label is given twice. *)
Definition opts_twice : list (string * string) :=
  [("--label", "a"); ("--bulk", EmptyString); ("--label", "b")].

(** A toolkit whose sub-commands return at once. *)
Definition toolkit : Xcltk.Toolkit := {|
  Xcltk.APP := "xcltk";
  Xcltk.VERSION := "0.0.0";
  Xcltk.run_command := fun _ _ err => (inr tt, err)
|}.

Definition st0 : Xcltk.State := {| Xcltk.stderr := []; Xcltk.started := [] |}.

End Sample.


(** * Facts about strings and paths *)

Lemma chars_inj s t : chars s = chars t -> s = t.
Proof.
  intros E. rewrite <- (String.string_of_list_ascii_of_string s),
    <- (String.string_of_list_ascii_of_string t). by rewrite E.
Qed.

Lemma chars_app s t : chars (s +:+ t) = chars s ++ chars t.
Proof.
  induction s as [|c s IH]; [done|].
  change (chars (String c s +:+ t)) with (c :: chars (s +:+ t)). by rewrite IH.
Qed.

Lemma append_nil_l (s : string) : EmptyString +:+ s = s.
Proof. done. Qed.

Lemma append_cons c (s t : string) : String c s +:+ t = String c (s +:+ t).
Proof. done. Qed.

Lemma append_assoc (s t u : string) : (s +:+ t) +:+ u = s +:+ t +:+ u.
Proof. apply chars_inj. by rewrite !chars_app, app_assoc. Qed.

Lemma append_inj_r (s t u : string) : s +:+ u = t +:+ u -> s = t.
Proof.
  intros E%(f_equal chars). rewrite !chars_app in E.
  apply app_inj_2 in E as [E _]; [by apply chars_inj|done].
Qed.

Lemma startswith_sep_cons c s :
  Py.startswith (String c s) sep = bool_decide (c = "/"%char).
Proof.
  unfold Py.startswith, sep.
  change (String.prefix "/" (String c s))
    with (match ascii_dec "/"%char c with
          | left _ => String.prefix EmptyString s
          | right _ => false
          end).
  destruct (ascii_dec "/"%char c) as [<-|Hne].
  - rewrite bool_decide_eq_true_2 by done. by destruct s.
  - by rewrite bool_decide_eq_false_2.
Qed.

Lemma startswith_sep_app h t :
  h <> EmptyString -> Py.startswith (h +:+ t) sep = Py.startswith h sep.
Proof.
  destruct h as [|c h]; [done|]. intros _.
  change (String c h +:+ t) with (String c (h +:+ t)).
  by rewrite !startswith_sep_cons.
Qed.

Lemma endswith_spec s suf :
  Py.endswith s suf = true <-> exists t, s = t +:+ suf.
Proof.
  induction s as [|c s IH]; cbn [Py.endswith].
  - rewrite orb_false_r, String.eqb_eq. split.
    + intros <-. by exists EmptyString.
    + intros [[|? ?] E]; [done|]. by rewrite append_cons in E.
  - rewrite orb_true_iff, String.eqb_eq, IH. split.
    + intros [<-|[t ->]]; [by exists EmptyString|by exists (String c t)].
    + intros [[|c' t] E]; [by left|].
      rewrite append_cons in E. injection E as -> ->. right. by exists t.
Qed.

Lemma prefix_spec sub s :
  String.prefix sub s = true <-> exists post, s = sub +:+ post.
Proof.
  revert s. induction sub as [|a sub IH]; intros s.
  - split; [|by destruct s]. intros _. by exists s.
  - destruct s as [|b s].
    + split; [done|]. intros [? E]. by rewrite append_cons in E.
    + change (String.prefix (String a sub) (String b s))
        with (match ascii_dec a b with
              | left _ => String.prefix sub s
              | right _ => false
              end).
      destruct (ascii_dec a b) as [<-|Hne].
      * rewrite IH. split; intros [post E]; exists post.
        -- by rewrite append_cons, E.
        -- rewrite append_cons in E. by injection E.
      * split; [done|]. intros [? E]. rewrite append_cons in E. by injection E.
Qed.

Lemma contains_spec sub s :
  Py.contains sub s = true <-> exists pre post, s = pre +:+ sub +:+ post.
Proof.
  induction s as [|c s IH]; cbn [Py.contains].
  - rewrite orb_false_r, prefix_spec. split.
    + intros [post E]. by exists EmptyString, post.
    + intros [[|? ?] [post E]]; [by exists post|]. by rewrite append_cons in E.
  - rewrite orb_true_iff, prefix_spec, IH. split.
    + intros [[post E]|[pre [post ->]]].
      * by exists EmptyString, post.
      * by exists (String c pre), post.
    + intros [[|c' pre] [post E]].
      * left. by exists post.
      * rewrite append_cons in E. injection E as -> ->. right. by exists pre, post.
Qed.

(** A string without a given character, as a list. *)
Lemma contains_char_false c s :
  Py.contains (String c EmptyString) s = false <-> c ∉ chars s.
Proof.
  rewrite <- not_true_iff_false, contains_spec. split.
  - intros Hno [l1 [l2 E]]%list_elem_of_split. apply Hno.
    exists (String.string_of_list_ascii l1), (String.string_of_list_ascii l2).
    apply chars_inj. rewrite !chars_app, !String.list_ascii_of_string_of_list_ascii.
    by rewrite E.
  - intros Hno [pre [post ->]]. apply Hno.
    rewrite !chars_app, elem_of_app. right. by left.
Qed.

Lemma os_path_join_rel a b :
  Py.startswith b sep = false -> os_path_join a b = dir_prefix a +:+ b.
Proof.
  intros Hb. unfold os_path_join, dir_prefix. rewrite Hb.
  destruct (_ || _); [done|]. by rewrite append_assoc.
Qed.




(** Where the last occurrence of a character is, is determined. *)
Lemma split_last_unique {A} (x : A) l1 l2 k1 k2 :
  x ∉ k1 -> x ∉ k2 -> l1 ++ x :: k1 = l2 ++ x :: k2 -> l1 = l2 /\ k1 = k2.
Proof.
  revert l2. induction l1 as [|a l1 IH]; intros [|b l2] H1 H2 E.
  - by injection E.
  - injection E as <- ->. exfalso. apply H1. rewrite elem_of_app, elem_of_cons. auto.
  - injection E as <- <-. exfalso. apply H2. rewrite elem_of_app, elem_of_cons. auto.
  - injection E as <- E. destruct (IH l2) as [-> ->]; auto.
Qed.

(** * Reasoning about runs *)

Section WP.
Context `{Env}.
Context {A : Type}.
Implicit Types (Q : Exn + A -> World -> Prop) (w : World).

Lemma wp_bind {B} (m : M B) (f : B -> M A) Q w :
  wp m (fun r w' => match r with
                    | inl e => Q (inl e) w'
                    | inr b => wp (f b) Q w'
                    end) w ->
  wp (bind m f) Q w.
Proof.
  unfold wp, bind. destruct (m w) as [[e|b] w']; auto.
Qed.

Lemma wp_mbind {B} (m : M B) (f : B -> M A) Q w :
  wp m (fun r w' => match r with
                    | inl e => Q (inl e) w'
                    | inr b => wp (f b) Q w'
                    end) w ->
  wp (m ≫= f) Q w.
Proof. apply wp_bind. Qed.

Lemma wp_ret (a : A) Q w : Q (inr a) w -> wp (mret a) Q w.
Proof. auto. Qed.

Lemma wp_raise e Q w : Q (inl e) w -> wp (raise e) Q w.
Proof. auto. Qed.

End WP.

(** Unfolds the monad's operations in a goal about one run step. *)
Ltac run_unfold :=
  unfold mbind, M_bind, mret, M_ret, bind, ret, raise, called, get_fs, set_fs,
         logged in *;
  cbn in *.

Section WPOps.
Context `{Env}.

Lemma wp_logged e (Q : Exn + unit -> World -> Prop) w :
  Q (inr tt) {| fs := fs w; trace := trace w; log := log w ++ [e] |} ->
  wp (logged e) Q w.
Proof. auto. Qed.

Lemma wp_called c (Q : Exn + unit -> World -> Prop) w :
  Q (inr tt) (after_call c w) -> wp (called c) Q w.
Proof. auto. Qed.

Lemma wp_os_path_exists p (Q : Exn + bool -> World -> Prop) w :
  Q (inr (bool_decide (p ∈ fs w))) w -> wp (os_path_exists p) Q w.
Proof. auto. Qed.

Lemma wp_fspath p (Q : Exn + string -> World -> Prop) w :
  (forall x, p = Some x -> Q (inr x) w) ->
  (p = None -> Q (inl TypeError) w) ->
  wp (fspath p) Q w.
Proof. destruct p; unfold wp; cbn; auto. Qed.

Lemma wp_assert_n v (Q : Exn + string -> World -> Prop) w :
  (forall x, v = Some x -> x <> EmptyString -> Q (inr x) (after_call (CAssertN v) w)) ->
  (v = None \/ v = Some EmptyString -> Q (inl ValueError) (after_call (CAssertN v) w)) ->
  wp (assert_n v) Q w.
Proof.
  intros Hok Hbad. unfold wp, assert_n.
  destruct v as [x|]; [|run_unfold; auto].
  destruct (String.eqb_spec x EmptyString) as [->|Hne]; run_unfold; auto.
Qed.

Lemma wp_assert_e p (Q : Exn + string -> World -> Prop) w :
  (forall x, p = Some x -> x ∈ fs w -> Q (inr x) (after_call (CAssertE p) w)) ->
  ((forall x, p = Some x -> x ∉ fs w) -> Q (inl OSError) (after_call (CAssertE p) w)) ->
  wp (assert_e p) Q w.
Proof.
  intros Hok Hbad. unfold wp, assert_e, os_path_exists.
  destruct p as [x|]; run_unfold.
  - case_bool_decide; cbn; [by apply Hok|].
    apply Hbad. by intros ? [= <-].
  - apply Hbad. by intros.
Qed.

(** [if not os.path.exists(p): os.mkdir(p)] *)
Lemma wp_ensure_dir p (Q : Exn + unit -> World -> Prop) w :
  ((p ∉ fs w -> os_mkdir_fails p (fs w) = false) ->
   Q (inr tt) {| fs := {[p]} ∪ fs w;
                 trace := trace w ++ mkdir_calls p (fs w);
                 log := log w |}) ->
  (p ∉ fs w -> os_mkdir_fails p (fs w) = true ->
   Q (inl OSError) (after_call (CMkdir p) w)) ->
  wp (if bool_decide (p ∈ fs w) then ret tt else os_mkdir p) Q w.
Proof.
  intros Hok Hbad. unfold wp, mkdir_calls in *.
  destruct (decide (p ∈ fs w)) as [Hp|Hp];
    [rewrite !bool_decide_eq_true_2 in * by done
    |rewrite !bool_decide_eq_false_2 in * by done]; cbn.
  - assert ({[p]} ∪ fs w = fs w) as E
      by (by apply subseteq_union_1_L, singleton_subseteq_l).
    rewrite E, app_nil_r in Hok. destruct w. by apply Hok.
  - unfold os_mkdir. run_unfold.
    destruct (os_mkdir_fails p (fs w)) eqn:E; cbn; auto.
Qed.

Lemma wp_collaborator c f (Q : Exn + unit -> World -> Prop) w :
  (forall s', f (fs w) = Some s' ->
     Q (inr tt) {| fs := s'; trace := trace w ++ [(c, fs w)]; log := log w |}) ->
  (f (fs w) = None -> Q (inl CollaboratorError) (after_call c w)) ->
  wp (collaborator c f) Q w.
Proof.
  intros Hok Hbad. unfold wp, collaborator. run_unfold.
  destruct (f (fs w)) eqn:E; cbn; auto.
Qed.

Lemma wp_split_chrom fn od lb cl (Q : Exn + SplitRes -> World -> Prop) w :
  (forall res s', vcf_split_chrom fn od lb cl (fs w) = Some (res, s') ->
     Q (inr res) {| fs := s';
                    trace := trace w ++ [(CVcfSplitChrom fn od lb cl, fs w)];
                    log := log w |}) ->
  (vcf_split_chrom fn od lb cl (fs w) = None ->
     Q (inl CollaboratorError) (after_call (CVcfSplitChrom fn od lb cl) w)) ->
  wp (split_chrom fn od lb cl) Q w.
Proof.
  intros Hok Hbad. unfold wp, split_chrom. run_unfold.
  destruct (vcf_split_chrom fn od lb cl (fs w)) as [[res s']|] eqn:E; cbn; auto.
Qed.

(** A loop of [assert_e] passes when every path exists, and otherwise
    raises at the first that does not; the file system is as it was. *)
Lemma wp_assert_all ps (Q : Exn + unit -> World -> Prop) w :
  (Forall (fun p => p ∈ fs w) ps ->
   Q (inr tt) (with_trace (assert_calls ps (fs w)) w)) ->
  (forall k p, ps !! k = Some p -> p ∉ fs w ->
     Forall (fun p => p ∈ fs w) (take k ps) ->
     Q (inl OSError) (with_trace (assert_calls (take (S k) ps) (fs w)) w)) ->
  wp (for_each ps (fun fn => assert_e (Some fn) ;; ret tt)) Q w.
Proof.
  revert Q w. induction ps as [|p ps IH]; intros Q w Hok Hbad.
  - unfold wp; cbn. specialize (Hok (Forall_nil_2 _)).
    unfold with_trace in Hok; cbn in Hok. rewrite app_nil_r in Hok. by destruct w.
  - cbn [for_each]. apply wp_bind, wp_mbind, wp_assert_e.
    + intros x [= <-] Hin. apply wp_ret.
      apply IH.
      * intros Hall. cbn [fs after_call] in *.
        assert (Forall (λ p0, p0 ∈ fs w) (p :: ps)) as Hall' by (by constructor).
        specialize (Hok Hall').
        unfold with_trace, after_call in *; cbn in *.
        by rewrite <- app_assoc.
      * intros k q Hk Hq Hall. cbn [fs after_call] in *.
        assert (Forall (λ p0, p0 ∈ fs w) (take (S k) (p :: ps))) as Hall' by (by constructor).
        specialize (Hbad (S k) q Hk Hq Hall').
        unfold with_trace, after_call in *; cbn in *.
        by rewrite <- app_assoc.
    + intros Hno. specialize (Hbad 0%nat p eq_refl (Hno p eq_refl) (Forall_nil_2 _)).
      by unfold with_trace, after_call in *.
Qed.

Lemma wp_panel_loop pd (l : list nat) (Q : Exn + unit -> World -> Prop) w :
  let ps := flat_map (fun chrom => [panel_bcf pd chrom; panel_csi pd chrom]) l in
  (Forall (fun p => p ∈ fs w) ps ->
   Q (inr tt) (with_trace (assert_calls ps (fs w)) w)) ->
  (forall k p, ps !! k = Some p -> p ∉ fs w ->
     Forall (fun p => p ∈ fs w) (take k ps) ->
     Q (inl OSError) (with_trace (assert_calls (take (S k) ps) (fs w)) w)) ->
  wp (for_each l (fun chrom =>
        assert_e (Some (panel_bcf pd chrom)) ;;
        assert_e (Some (panel_csi pd chrom)) ;;
        ret tt)) Q w.
Proof.
  cbv zeta. revert Q w. induction l as [|i l IH]; intros Q w Hok Hbad.
  - unfold wp; cbn. specialize (Hok (Forall_nil_2 _)).
    unfold with_trace in Hok; cbn in Hok. rewrite app_nil_r in Hok. by destruct w.
  - cbn [for_each flat_map app] in *. apply wp_bind, wp_mbind, wp_assert_e.
    + intros x [= <-] Hin. apply wp_mbind, wp_assert_e.
      * intros x [= <-] Hin2. apply wp_ret. apply IH.
        -- intros Hall. cbn [fs after_call] in *.
           assert (Forall (λ p0, p0 ∈ fs w)
                     (panel_bcf pd i :: panel_csi pd i ::
                      flat_map (λ chrom, [panel_bcf pd chrom; panel_csi pd chrom]) l))
             as Hall' by (by repeat constructor).
           specialize (Hok Hall').
           unfold with_trace, after_call in *; cbn in *.
           by rewrite <- !app_assoc.
        -- intros k q Hk Hq Hall. cbn [fs after_call] in *.
           specialize (Hbad (S (S k)) q Hk Hq).
           cbn [take] in Hbad.
           assert (Forall (λ p0, p0 ∈ fs w)
                     (panel_bcf pd i :: panel_csi pd i ::
                      take k (flat_map (λ chrom, [panel_bcf pd chrom; panel_csi pd chrom]) l)))
             as Hall' by (by repeat constructor).
           specialize (Hbad Hall').
           unfold with_trace, after_call in *; cbn in *.
           by rewrite <- !app_assoc.
      * intros Hno. cbn [fs after_call] in *.
        specialize (Hbad 1%nat (panel_csi pd i) eq_refl (Hno _ eq_refl)).
        cbn [take] in Hbad.
        assert (Forall (λ p0, p0 ∈ fs w) [panel_bcf pd i]) as Hall' by (by repeat constructor).
        specialize (Hbad Hall').
        unfold with_trace, after_call in *; cbn in *.
        by rewrite <- !app_assoc.
    + intros Hno. specialize (Hbad 0%nat _ eq_refl (Hno _ eq_refl) (Forall_nil_2 _)).
      by unfold with_trace, after_call in *.
Qed.

Lemma wp_check_panel pd (Q : Exn + unit -> World -> Prop) w :
  (Forall (fun p => p ∈ fs w) (panel_files pd) ->
   Q (inr tt) (with_trace (assert_calls (panel_files pd) (fs w)) w)) ->
  (forall k p, panel_files pd !! k = Some p -> p ∉ fs w ->
     Forall (fun p => p ∈ fs w) (take k (panel_files pd)) ->
     Q (inl OSError) (with_trace (assert_calls (take (S k) (panel_files pd)) (fs w)) w)) ->
  wp (check_panel pd) Q w.
Proof. apply wp_panel_loop. Qed.

(** The loop over [res] keeps the triples with variants, in order, and
    has indexed each kept file, [vcf_index] returning, when it ends; when
    [vcf_index] raises, the files it was called on are the first kept
    ones. *)
Lemma wp_retain_loop res v0 t0
    (Q : Exn + (list string * list string) -> World -> Prop) w :
  (forall tr s', map fst tr = map CVcfIndex (target_vcf_list_of res) ->
     Forall (fun e => forall f, e.1 = CVcfIndex f -> is_Some (vcf_index f e.2)) tr ->
     Q (inr (v0 ++ valid_chroms_of res, t0 ++ target_vcf_list_of res))
       {| fs := s'; trace := trace w ++ tr; log := log w |}) ->
  (forall tr s' k, (k < length (target_vcf_list_of res))%nat ->
     map fst tr = map CVcfIndex (take (S k) (target_vcf_list_of res)) ->
     Q (inl CollaboratorError)
       {| fs := s'; trace := trace w ++ tr; log := log w |}) ->
  wp (for_fold res retain (v0, t0)) Q w.
Proof.
  revert v0 t0 Q w. induction res as [|[[c n] f] res IH]; intros v0 t0 Q w Hok Hbad.
  - unfold wp; cbn. specialize (Hok [] (fs w) eq_refl (Forall_nil_2 _)).
    cbn in Hok. rewrite !app_nil_r in Hok. by destruct w.
  - cbn [for_fold]. apply wp_bind. unfold retain.
    unfold valid_chroms_of, target_vcf_list_of, retained in *.
    cbn [List.filter fst snd] in *.
    destruct (0 <? n)%Z eqn:En; cbn [map length take] in *.
    + apply wp_mbind, wp_collaborator.
      * intros s' Hs'. apply wp_ret. apply IH.
        -- intros tr s'' Htr Hall. cbn [fs trace log].
           specialize (Hok ((CVcfIndex f, fs w) :: tr) s'').
           rewrite <- !app_assoc. cbn [app]. apply Hok; [cbn; by f_equal|].
           constructor; [|done]. cbn. intros ? [= <-]. by rewrite Hs'.
        -- intros tr s'' k Hk Htr. cbn [fs trace log].
           specialize (Hbad ((CVcfIndex f, fs w) :: tr) s'' (S k)).
           rewrite <- !app_assoc. cbn [app]. apply Hbad; [lia|]. cbn. by f_equal.
      * intros Hnone. specialize (Hbad [(CVcfIndex f, fs w)] (fs w) 0%nat).
        unfold after_call. apply Hbad; [lia|]. cbn. by rewrite take_0.
    + apply wp_ret. by apply IH.
Qed.

End WPOps.

(** Symbolic execution of a run, one step at a time. *)
Ltac wp_simpl :=
  cbv beta iota zeta; unfold after_call, with_trace in *; cbn [fs trace log] in *.

Ltac wp_step :=
  lazymatch goal with
  | |- wp (mbind _ _) _ _ => apply wp_mbind
  | |- wp (bind _ _) _ _ => apply wp_bind
  | |- wp (mret _) _ _ => apply wp_ret
  | |- wp (ret _) _ _ => apply wp_ret
  | |- wp (raise _) _ _ => apply wp_raise
  | |- wp (info _) _ _ => apply wp_logged
  | |- wp (error _) _ _ => apply wp_logged
  | |- wp (logged _) _ _ => apply wp_logged
  | |- wp (assert_n _) _ _ => apply wp_assert_n; [intros ? ? ? | intros ?]
  | |- wp (assert_e _) _ _ => apply wp_assert_e; [intros ? ? ? | intros ?]
  | |- wp (fspath _) _ _ => apply wp_fspath; [intros ? ? | intros ?]
  | |- wp (os_path_exists _) _ _ => apply wp_os_path_exists
  | |- wp (if bool_decide (?p ∈ _) then ret tt else os_mkdir _) ?Q ?w =>
      apply (wp_ensure_dir p Q w); [intros ? | intros ? ?]
  | |- wp (collaborator _ _) _ _ => apply wp_collaborator; [intros ? ? | intros ?]
  | |- wp (split_chrom _ _ _ _) _ _ => apply wp_split_chrom; [intros ? ? ? | intros ?]
  | |- wp (check_panel _) _ _ => apply wp_check_panel; [intros ? | intros ? ? ? ? ?]
  | |- wp (for_fold _ retain _) _ _ =>
      apply wp_retain_loop; [intros ? ? ? ? | intros ? ? ? ? ?]
  | |- wp (for_each _ _) _ _ => apply wp_assert_all; [intros ? | intros ? ? ? ? ?]
  end; wp_simpl.

(** Runs a whole pipeline symbolically: one goal per way it can end. *)
Ltac wp_run := repeat wp_step; cbn [app] in *.

(** ** Which call of a trace an event is *)

Lemma elem_of_mkdir_calls e p s :
  e ∈ mkdir_calls p s <-> (p ∉ s) /\ e = (CMkdir p, s).
Proof.
  unfold mkdir_calls. destruct (decide (p ∈ s)).
  - rewrite bool_decide_eq_true_2 by done. rewrite elem_of_nil. tauto.
  - rewrite bool_decide_eq_false_2 by done. rewrite list_elem_of_singleton. tauto.
Qed.

Lemma elem_of_assert_calls e ps s :
  e ∈ assert_calls ps s <-> exists p, e = (CAssertE (Some p), s) /\ p ∈ ps.
Proof. unfold assert_calls. by rewrite list_elem_of_fmap. Qed.

Lemma elem_of_index_calls (tr : list (Call * FS)) l e :
  map fst tr = map CVcfIndex l -> e ∈ tr -> exists f, e.1 = CVcfIndex f /\ f ∈ l.
Proof.
  intros Htr He. assert (e.1 ∈ map fst tr) as Hin by (apply list_elem_of_fmap; eauto).
  rewrite Htr in Hin. apply list_elem_of_fmap in Hin as (f & ? & ?). eauto.
Qed.

(** Case analysis on which call of a symbolically executed trace an event
    is; the cases of another kind of call are closed. *)
Ltac trace_inv H :=
  repeat first
    [ apply elem_of_app in H as [H|H]
    | apply elem_of_cons in H as [H|H]
    | apply elem_of_nil in H; destruct H
    | apply elem_of_mkdir_calls in H as [? H]
    | apply elem_of_assert_calls in H as (? & H & ?)
    | match goal with
      | Htr : map fst ?tr = map CVcfIndex _ |- _ =>
          match type of H with
          | _ ∈ tr => apply (elem_of_index_calls _ _ _ Htr) in H as (? & H & ?); cbn in H
          end
      end ];
  try discriminate H.

(** An event that is in a symbolically executed trace. *)
Ltac trace_mem :=
  first [ assumption
        | by apply list_elem_of_singleton
        | apply elem_of_mkdir_calls; by split
        | apply elem_of_cons; first [ by left | right; trace_mem ]
        | apply elem_of_app; first [ right; trace_mem | left; trace_mem ] ].

Ltac use_forall :=
  match goal with
  | HF : Forall _ ?l, Hi : ?p ∈ ?l |- _ => exact (proj1 (Forall_forall _ _) HF _ Hi)
  end.

(** ** What the loop over the split result keeps *)

Lemma retained_in (res : SplitRes) c n f :
  (c, n, f) ∈ res -> 0 < n ->
  c ∈ valid_chroms_of res /\ f ∈ target_vcf_list_of res.
Proof.
  intros Hin Hn. unfold valid_chroms_of, target_vcf_list_of, retained.
  assert ((c, n, f) ∈ List.filter (fun r : string * Z * string => 0 <? r.1.2) res) as Hf.
  { apply list_elem_of_In, filter_In. split; [by apply list_elem_of_In|].
    cbn. by apply Z.ltb_lt. }
  split; apply list_elem_of_fmap; by exists (c, n, f).
Qed.


Lemma valid_chroms_sublist (res : SplitRes) :
  valid_chroms_of res `sublist_of` map (fun r => r.1.1) res.
Proof.
  unfold valid_chroms_of, retained. induction res as [|r res IH]; [done|].
  cbn. destruct (0 <? r.1.2); cbn; by constructor.
Qed.

(** The kept chromosomes and the kept files are the two sides of the same
    kept triples. *)
Lemma retained_lookup (res : SplitRes) i c :
  valid_chroms_of res !! i = Some c ->
  exists n f, (c, n, f) ∈ res /\ 0 < n /\ target_vcf_list_of res !! i = Some f.
Proof.
  unfold valid_chroms_of, target_vcf_list_of. rewrite !list_lookup_fmap.
  destruct (retained res !! i) as [[[c' n] f]|] eqn:E; [|done].
  intros [= <-]. exists n, f.
  apply list_elem_of_lookup_2 in E. unfold retained in E.
  apply list_elem_of_In, filter_In in E as [E Hpos%Z.ltb_lt].
  by apply list_elem_of_In in E.
Qed.

(** ** Names of chromosomes and of the files derived from them *)

Lemma chrom_list_NoDup : NoDup chrom_list.
Proof. apply (bool_decide_unpack (NoDup chrom_list)). by vm_compute. Qed.

Lemma chrom_list_chars c :
  c ∈ chrom_list ->
  Py.startswith c sep = false /\ ("_"%char ∉ chars c) /\ ("/"%char ∉ chars c).
Proof.
  revert c. apply Forall_forall.
  apply (bool_decide_unpack (Forall _ chrom_list)). by vm_compute.
Qed.







Lemma split_at_unique {A} (P : A -> Prop) (l1 l2 pre post : list A) x e :
  (forall y, y ∈ l1 -> ~ P y) -> (forall y, y ∈ l2 -> ~ P y) -> P e ->
  l1 ++ x :: l2 = pre ++ e :: post -> pre = l1 /\ e = x.
Proof.
  intros H1 H2 He. revert pre. induction l1 as [|a l1 IH]; intros [|b pre] E.
  - by injection E.
  - injection E as <- ->. exfalso. apply (H2 e); [|done].
    rewrite elem_of_app, elem_of_cons. auto.
  - injection E as -> _. exfalso. apply (H1 e); [by left|done].
  - injection E as <- E. destruct (IH (fun y Hy => H1 y (list_elem_of_further _ _ _ Hy)) pre E)
      as [-> ->]. done.
Qed.

(** Calls made after the one looked for can be set aside. *)
Lemma split_peel_r {A} (P : A -> Prop) (l r pre post : list A) e :
  (forall y, y ∈ r -> ~ P y) -> P e ->
  l ++ r = pre ++ e :: post -> exists post', l = pre ++ e :: post'.
Proof.
  intros Hr He E. apply app_eq_inv in E as [(k & -> & E)|(k & -> & E)].
  - destruct k as [|e' k].
    + exfalso. apply (Hr e); [|done]. cbn in E. rewrite <- E. by left.
    + injection E as <- _. by exists k.
  - exfalso. apply (Hr e); [|done]. rewrite E, elem_of_app, elem_of_cons. auto.
Qed.

(** No call of the kind [P] among the calls of a symbolic trace. *)
Ltac none_of P :=
  let y := fresh "y" in let Hy := fresh "Hy" in
  intros y Hy; unfold P; trace_inv Hy;
  first [ subst y; exact id | rewrite Hy; exact id ].

(** Splits a symbolically executed trace (its [++] nested to the left) at
    its one call of the kind [P]. *)
Ltac split_trace P Heq :=
  repeat
    (lazymatch type of Heq with
     | ?l ++ [?x] = _ =>
         assert_fails (assert (P x) by exact I);
         apply (split_peel_r P) in Heq as [? Heq]; [ | none_of P | exact I ]
     | ?l ++ ?r = _ =>
         apply (split_peel_r P) in Heq as [? Heq]; [ | none_of P | exact I ]
     end);
  apply (split_at_unique P) in Heq as [-> Heq];
  [ | none_of P | none_of P | exact I ].

(** A path that is in a file system grown by [os.mkdir]. *)
Ltac in_fs := rewrite ?elem_of_union, ?elem_of_singleton in *; by auto 10.

Lemma index_calls_cover `{Env} (tr : list (Call * FS)) l f :
  map fst tr = map CVcfIndex l ->
  Forall (fun e => forall f, e.1 = CVcfIndex f -> is_Some (vcf_index f e.2)) tr ->
  f ∈ l ->
  exists si, (CVcfIndex f, si) ∈ tr /\ is_Some (vcf_index f si).
Proof.
  intros Htr Hall Hf.
  assert (CVcfIndex f ∈ map fst tr) as Hin by (rewrite Htr; by apply list_elem_of_fmap_2).
  apply list_elem_of_fmap in Hin as ([c si] & Hc & He). cbn in Hc. subst c.
  exists si. split; [done|].
  by apply (proj1 (Forall_forall _ _) Hall _ He f).
Qed.


(** * The pipeline *)

Section Run.
Context `{Env}.


(** C2: [vcf_merge] is only ever called on a file system where every
    expected phased file exists, those being the files of the phasing call,
    and it writes to <out_dir>/<label>.phased.vcf.gz.  If one expected
    phased file is absent once [ref_phasing] has returned, the run ends in
    an [OSError], [vcf_merge] is never called, and the file system is left
    as phasing left it: no merged output. *)
Theorem merge_needs_every_phased_file (a : Args) (s : FS) :
  wp (run_baf_preprocess a)
    (fun r w' =>
       (forall l o b sm, (CVcfMerge l o b, sm) ∈ trace w' ->
          Forall (fun p => p ∈ sm) l /\
          (exists out lb, out_dir a = Some out /\ label a = Some lb /\
                          o = phased_vcf_fn out lb) /\
          exists ph sp, (CRefPhasing ph, sp) ∈ trace w' /\
                        ref_phasing ph sp = Some sm /\
                        l = map phased_vcf (out_prefix_list ph)) /\
       (forall ph sp s8 p, (CRefPhasing ph, sp) ∈ trace w' ->
          ref_phasing ph sp = Some s8 ->
          p ∈ map phased_vcf (out_prefix_list ph) -> p ∉ s8 ->
          r = inl OSError /\ fs w' = s8 /\
          forall l o b sm, (CVcfMerge l o b, sm) ∉ trace w'))
    (boot s).
Proof.
  unfold run_baf_preprocess, boot. wp_run.
  all: split; [intros ql qo qb qsm Hm | intros qph qsp qs8 qp Hp Hs8 Hin Hnin].
  all: try (trace_inv Hm; fail).
  all: try (trace_inv Hp; fail).
  all: try (trace_inv Hm; injection Hm as -> -> -> ->;
            split_and!; [done|by eexists _, _|];
            eexists _, _; split; [trace_mem|done]).
  all: trace_inv Hp; injection Hp as -> ->; cbn [out_prefix_list] in *.
  all: rewrite Hs8 in *; simplify_eq.
  all: try (exfalso; apply Hnin; use_forall).
  all: split; [done|split; [done|]]; intros ? ? ? ? Hm; trace_inv Hm.
Qed.


(** C4: the lists handed to [ref_phasing] all have the length of the list
    of retained chromosomes; at each index [i] they hold the split file of
    the [i]-th retained chromosome [c], <panel_dir>/<c>.genotypes.bcf and
    <phasing_dir>/<label>_<c>.phased; and the retained chromosomes come in
    the order of the split result, which is the order chr1..chr22. *)
Theorem phasing_lists_aligned (a : Args) (s : FS) :
  wp (run_baf_preprocess a)
    (fun _ w' =>
       forall ph sp, (CRefPhasing ph, sp) ∈ trace w' ->
       exists pd out lb ss res s6,
         panel_dir a = Some pd /\ out_dir a = Some out /\ label a = Some lb /\
         (CVcfSplitChrom (genotype_vcf_fn out lb) (phasing_dir out) lb chrom_list, ss)
           ∈ trace w' /\
         vcf_split_chrom (genotype_vcf_fn out lb) (phasing_dir out) lb chrom_list ss
           = Some (res, s6) /\
         length (target_vcf_list ph) = length (valid_chroms_of res) /\
         length (ref_vcf_list ph) = length (valid_chroms_of res) /\
         length (out_prefix_list ph) = length (valid_chroms_of res) /\
         (forall i c, valid_chroms_of res !! i = Some c ->
            exists n f, (c, n, f) ∈ res /\ 0 < n /\
              target_vcf_list ph !! i = Some f /\
              ref_vcf_list ph !! i
                = Some (os_path_join pd (c +:+ ".genotypes.bcf")) /\
              out_prefix_list ph !! i
                = Some (os_path_join (phasing_dir out)
                          (lb +:+ "_" +:+ c +:+ ".phased"))) /\
         valid_chroms_of res `sublist_of` map (fun r => r.1.1) res /\
         (split_contract chrom_list res ->
          valid_chroms_of res `sublist_of` chrom_list))
    (boot s).
Proof.
  unfold run_baf_preprocess, boot. wp_run.
  all: intros qph qsp Hp; trace_inv Hp; injection Hp as -> ->.
  all: eexists _, _, _, _, _, _; split_and!; [done|done|done|trace_mem|done|..].
  all: cbn [target_vcf_list ref_vcf_list out_prefix_list].
  all: rewrite ?length_map; try done.
  all: try apply valid_chroms_sublist.
  all: try (intros <-; apply valid_chroms_sublist).
  all: try (unfold valid_chroms_of, target_vcf_list_of; by rewrite !length_map).
  all: intros i c Hi; destruct (retained_lookup res i c Hi) as (n & f & ? & ? & ?).
  all: exists n, f; split_and!; [done|done|done|idtac|idtac].
  all: by rewrite list_lookup_fmap, Hi.
Qed.

(** C5: when [ref_phasing] is called, every split file with a positive
    variant count is one of its targets, and for every target a call
    [vcf_index] on that file has been made, and has returned, earlier in the
    run. *)
Theorem retained_files_indexed_before_phasing (a : Args) (s : FS) :
  wp (run_baf_preprocess a)
    (fun _ w' =>
       forall pre ph sp post, trace w' = pre ++ (CRefPhasing ph, sp) :: post ->
       exists fn od lb ss res s6,
         (CVcfSplitChrom fn od lb chrom_list, ss) ∈ pre /\
         vcf_split_chrom fn od lb chrom_list ss = Some (res, s6) /\
         (forall c n f, (c, n, f) ∈ res -> 0 < n -> f ∈ target_vcf_list ph) /\
         (forall f, f ∈ target_vcf_list ph ->
            exists si, (CVcfIndex f, si) ∈ pre /\ is_Some (vcf_index f si)))
    (boot s).
Proof.
  unfold run_baf_preprocess, boot. repeat wp_step.
  all: intros pre qph qsp post Heq.
  all: try (assert ((CRefPhasing qph, qsp) ∈ pre ++ (CRefPhasing qph, qsp) :: post) as Hp
              by (rewrite elem_of_app, elem_of_cons; auto);
            rewrite <- Heq in Hp; trace_inv Hp; fail).
  all: split_trace is_phasing Heq; injection Heq as -> ->.
  all: eexists _, _, _, _, _, _; split_and!; [trace_mem|done|..].
  all: cbn [target_vcf_list app].
  all: try (intros c n f Hin Hn; by apply (retained_in res c n f)).
  all: intros f Hf; destruct (index_calls_cover tr _ f ltac:(done) ltac:(done) Hf)
         as (si & Hsi & Hok).
  all: exists si; split; [trace_mem|done].
Qed.

(** C6, amended: before [pileup] is called, only checks and the creation
    of the output and pileup directories have happened; the label is set,
    and the SNP file, the output directory, the genetic map, the Eagle
    binary, the panel directory and its 44 files exist.  The alignment file,
    the alignment list and the barcode file are not looked at: they are
    handed to [pileup] as they were given. *)
Theorem pileup_runs_after_checked_paths (a : Args) (s : FS) :
  wp (run_baf_preprocess a)
    (fun _ w' =>
       forall pre pa sp post, trace w' = pre ++ (CPileup pa, sp) :: post ->
         (forall e, e ∈ pre -> is_check e a \/ e.1 = CMkdir (p_out_dir pa)) /\
         (exists lb snp out,
            label a = Some lb /\ lb <> EmptyString /\
            snp_vcf_fn a = Some snp /\ snp ∈ sp /\
            out_dir a = Some out /\ out ∈ sp /\
            p_out_dir pa = pileup_dir out /\ pileup_dir out ∈ sp) /\
         panel_ready a sp /\
         p_sam_fn pa = sam_fn a /\
         p_sam_list_fn pa = sam_list_fn a /\
         p_barcode_fn pa = barcode_fn a)
    (boot s).
Proof.
  unfold run_baf_preprocess, boot. repeat wp_step.
  all: intros pre qpa qsp post Heq.
  all: try (assert ((CPileup qpa, qsp) ∈ pre ++ (CPileup qpa, qsp) :: post) as Hp
              by (rewrite elem_of_app, elem_of_cons; auto);
            rewrite <- Heq in Hp; trace_inv Hp; fail).
  all: split_trace is_pileup Heq; injection Heq as -> ->.
  all: cbn [p_out_dir p_sam_fn p_sam_list_fn p_barcode_fn].
  all: split_and!; [ | | |done|done|done].
  all: try (intros e He; unfold is_check; trace_inv He; subst e; cbn; by auto).
  all: try (eexists _, _, _; split_and!; try done; in_fs).
  all: eexists _, _, _; split_and!; try done; try in_fs.
  all: eapply Forall_impl; [eassumption|]; cbn; intros; in_fs.
Qed.


End Run.

(** ** The genome build *)

(** C8: the genome build is "hg19" exactly when the name of the genetic
    map contains "hg19", and "hg38" in every other case. *)
Theorem genome_from_gmap_name (gmap_fn : string) :
  (genome gmap_fn = "hg19" <->
   exists pre post, gmap_fn = pre +:+ "hg19" +:+ post) /\
  (genome gmap_fn <> "hg19" -> genome gmap_fn = "hg38").
Proof.
  unfold genome. rewrite <- contains_spec.
  destruct (Py.contains "hg19" gmap_fn); by split.
Qed.

(** ** Names derived from the label *)

Lemma plain_label_chars lb : plain_label lb <-> "/"%char ∉ chars lb.
Proof. apply contains_char_false. Qed.

Lemma plain_startswith lb t :
  plain_label lb -> Py.startswith t sep = false ->
  Py.startswith (lb +:+ t) sep = false.
Proof.
  intros Hlb Ht. destruct lb as [|c lb]; [done|].
  rewrite startswith_sep_app by done. rewrite startswith_sep_cons.
  apply bool_decide_eq_false_2. intros ->.
  apply plain_label_chars in Hlb. apply Hlb. by left.
Qed.

Lemma dir_prefix_phasing out :
  dir_prefix (phasing_dir out) = dir_prefix out +:+ "phasing/".
Proof.
  unfold phasing_dir. rewrite os_path_join_rel by done.
  unfold dir_prefix at 1.
  assert (String.eqb (dir_prefix out +:+ "phasing") EmptyString = false) as ->.
  { apply String.eqb_neq. intros E%(f_equal chars).
    rewrite chars_app in E. by destruct (chars (dir_prefix out)). }
  assert (Py.endswith (dir_prefix out +:+ "phasing") sep = false) as ->.
  { apply not_true_iff_false. intros [t E%(f_equal chars)]%endswith_spec.
    rewrite !chars_app in E.
    change (chars "phasing") with (chars "phasin" ++ chars "g") in E.
    rewrite app_assoc in E. by apply app_inj_2 in E as [_ ?]. }
  cbn [orb]. by rewrite append_assoc.
Qed.

Lemma genotype_vcf_fn_plain out lb :
  plain_label lb ->
  genotype_vcf_fn out lb = dir_prefix out +:+ lb +:+ ".genotype.vcf.gz".
Proof. intros Hlb. apply os_path_join_rel. by apply plain_startswith. Qed.

Lemma phased_vcf_fn_plain out lb :
  plain_label lb ->
  phased_vcf_fn out lb = dir_prefix out +:+ lb +:+ ".phased.vcf.gz".
Proof. intros Hlb. apply os_path_join_rel. by apply plain_startswith. Qed.

Lemma phased_vcf_plain out lb c :
  plain_label lb ->
  phased_vcf (out_prefix out lb c)
  = dir_prefix out +:+ "phasing/" +:+ lb +:+ "_" +:+ c +:+ ".phased.vcf.gz".
Proof.
  intros Hlb. unfold phased_vcf, out_prefix.
  rewrite os_path_join_rel by by apply plain_startswith.
  rewrite dir_prefix_phasing. by rewrite !append_assoc.
Qed.

(** Two strings with different endings of the same length differ. *)
Lemma ending_differs (l1 l2 k1 k2 : list ascii) :
  length k1 = length k2 -> k1 <> k2 -> l1 ++ k1 <> l2 ++ k2.
Proof. intros Hlen Hne E. by apply app_inj_2 in E as [_ ?]. Qed.

Section Same.
Context (out lb1 lb2 : string).
Context (H1 : plain_label lb1) (H2 : plain_label lb2).

Lemma genotype_vcf_fn_inj :
  genotype_vcf_fn out lb1 = genotype_vcf_fn out lb2 -> lb1 = lb2.
Proof.
  rewrite !genotype_vcf_fn_plain by done. intros E%(inj _). by apply append_inj_r in E.
Qed.

Lemma phased_vcf_fn_inj :
  phased_vcf_fn out lb1 = phased_vcf_fn out lb2 -> lb1 = lb2.
Proof.
  rewrite !phased_vcf_fn_plain by done. intros E%(inj _). by apply append_inj_r in E.
Qed.

Lemma genotype_not_phased : genotype_vcf_fn out lb1 <> phased_vcf_fn out lb2.
Proof.
  rewrite genotype_vcf_fn_plain, phased_vcf_fn_plain by done.
  intros E%(inj _)%(f_equal chars). rewrite !chars_app in E.
  change (chars ".genotype.vcf.gz") with (chars ".genotyp" ++ chars "e.vcf.gz") in E.
  change (chars ".phased.vcf.gz") with (chars ".phase" ++ chars "d.vcf.gz") in E.
  rewrite !app_assoc in E. by apply ending_differs in E.
Qed.

Lemma genotype_not_chrom c :
  genotype_vcf_fn out lb1 <> phased_vcf (out_prefix out lb2 c).
Proof.
  rewrite genotype_vcf_fn_plain, phased_vcf_plain by done.
  intros E%(inj _)%(f_equal chars). rewrite !chars_app in E.
  change (chars ".genotype.vcf.gz") with (chars ".genotyp" ++ chars "e.vcf.gz") in E.
  change (chars ".phased.vcf.gz") with (chars ".phase" ++ chars "d.vcf.gz") in E.
  rewrite !app_assoc in E. by apply ending_differs in E.
Qed.

Lemma merged_not_chrom c :
  phased_vcf_fn out lb1 <> phased_vcf (out_prefix out lb2 c).
Proof.
  rewrite phased_vcf_fn_plain, phased_vcf_plain by done.
  intros E%(inj _)%(f_equal chars). rewrite !chars_app in E.
  rewrite !app_assoc in E. apply app_inj_2 in E as [E _]; [|done].
  apply plain_label_chars in H1. apply H1. rewrite E.
  rewrite <- !app_assoc. cbn. do 7 right. by left.
Qed.

Lemma chrom_inj c1 c2 :
  c1 ∈ chrom_list -> c2 ∈ chrom_list ->
  phased_vcf (out_prefix out lb1 c1) = phased_vcf (out_prefix out lb2 c2) ->
  lb1 = lb2 /\ c1 = c2.
Proof.
  intros (_ & Hc1 & _)%chrom_list_chars (_ & Hc2 & _)%chrom_list_chars.
  rewrite !phased_vcf_plain by done.
  intros E%(inj _)%(inj _)%(f_equal chars). rewrite !chars_app in E.
  rewrite !app_assoc in E. apply app_inj_2 in E as [E _]; [|done].
  rewrite <- !app_assoc in E. cbn in E.
  apply split_last_unique in E as [E1 E2]; [|done..].
  split; by apply chars_inj.
Qed.
End Same.

(** C9, amended: for labels without a directory separator, the genotype
    VCF is <out>/<label>.genotype.vcf.gz, the merged VCF is
    <out>/<label>.phased.vcf.gz, the phased file of a chromosome is
    <out>/phasing/<label>_<chrom>.phased.vcf.gz; the files of one label are
    pairwise distinct, and two different labels share no file in the same
    output directory. *)
Theorem label_paths_distinct (out lb1 lb2 : string) :
  plain_label lb1 -> plain_label lb2 ->
  (genotype_vcf_fn out lb1 = dir_prefix out +:+ lb1 +:+ ".genotype.vcf.gz" /\
   phased_vcf_fn out lb1 = dir_prefix out +:+ lb1 +:+ ".phased.vcf.gz" /\
   forall c, phased_vcf (out_prefix out lb1 c)
             = dir_prefix out +:+ "phasing/" +:+ lb1 +:+ "_" +:+ c +:+ ".phased.vcf.gz") /\
  NoDup (label_paths out lb1) /\
  (lb1 <> lb2 -> forall p, p ∈ label_paths out lb1 -> p ∉ label_paths out lb2).
Proof.
  intros H1 H2. split_and!.
  - by apply genotype_vcf_fn_plain.
  - by apply phased_vcf_fn_plain.
  - intros c. by apply phased_vcf_plain.
  - unfold label_paths. apply NoDup_cons_2; [|apply NoDup_cons_2].
    + intros [E|[c [E _]]%list_elem_of_fmap]%elem_of_cons.
      * by apply genotype_not_phased in E.
      * by apply genotype_not_chrom in E.
    + intros [c [E _]]%list_elem_of_fmap. by apply merged_not_chrom in E.
    + apply NoDup_fmap_2_strong; [|apply chrom_list_NoDup].
      intros c1 c2 Hc1 Hc2 E. by apply chrom_inj in E as [_ ?].
  - intros Hne p Hp1 Hp2. unfold label_paths in *.
    apply elem_of_cons in Hp1 as [->|[->|[c1 [-> Hc1]]%list_elem_of_fmap]%elem_of_cons];
    apply elem_of_cons in Hp2 as [E|[E|[c2 [E Hc2]]%list_elem_of_fmap]%elem_of_cons].
    + by apply genotype_vcf_fn_inj in E.
    + by apply genotype_not_phased in E.
    + by apply genotype_not_chrom in E.
    + symmetry in E. by apply genotype_not_phased in E.
    + by apply phased_vcf_fn_inj in E.
    + by apply merged_not_chrom in E.
    + symmetry in E. by apply genotype_not_chrom in E.
    + symmetry in E. by apply merged_not_chrom in E.
    + by apply chrom_inj in E as [? _].
Qed.

(** C9 as it stands does not hold: the label "phasing/a_chr1" puts its
    merged VCF where the label "a" puts its phased file of chr1. *)
Lemma label_paths_collide :
  "a" <> "phasing/a_chr1" /\
  phased_vcf (out_prefix "out" "a" "chr1") ∈ label_paths "out" "a" /\
  phased_vcf (out_prefix "out" "a" "chr1") ∈ label_paths "out" "phasing/a_chr1".
Proof.
  split; [done|]. split.
  - do 2 right. by left.
  - right. by left.
Qed.

Lemma split_at_no_char c s l r :
  Py.split_at c s = Some (l, r) -> c ∉ chars l.
Proof.
  revert l. induction s as [|a s IH]; intros l; cbn; [done|].
  destruct (Ascii.eqb_spec a c) as [->|Hne].
  - intros [= <- <-]. cbn. apply not_elem_of_nil.
  - destruct (Py.split_at c s) as [[l' r']|]; [|done].
    intros [= <- <-]. cbn. rewrite not_elem_of_cons. split; [done|by apply IH].
Qed.

Lemma split_at_none c s : Py.split_at c s = None -> c ∉ chars s.
Proof.
  induction s as [|a s IH]; cbn; [intros _; apply not_elem_of_nil|].
  destruct (Ascii.eqb_spec a c) as [->|Hne]; [done|].
  destruct (Py.split_at c s) as [[l' r']|]; [done|].
  intros _. rewrite not_elem_of_cons. split; [done|by apply IH].
Qed.

Lemma filter_subseteq {A} (f : A -> bool) (l : list A) x :
  x ∈ List.filter f l -> x ∈ l.
Proof. intros [Hx _]%list_elem_of_In%filter_In. by apply list_elem_of_In. Qed.

Lemma drop_last_append opt c : Py.drop_last (opt +:+ String c EmptyString) = opt.
Proof.
  induction opt as [|a opt IH]; [done|].
  rewrite append_cons. cbn [Py.drop_last]. rewrite IH.
  destruct opt; by rewrite ?append_cons.
Qed.

Lemma append_eq_inv opt (t : string) :
  opt +:+ "=" = t -> Py.endswith t "=" = true /\ opt = Py.drop_last t.
Proof.
  intros <-. split; [apply endswith_spec; by exists opt|].
  by rewrite drop_last_append.
Qed.

(** [long_has_args] answers with the name of one of the long options. *)
Lemma long_has_args_known opt b name :
  "="%char ∉ chars opt ->
  Getopt.long_has_args opt longopts = inr (b, name) ->
  "--" +:+ name ∈ option_names.
Proof.
  intros Hopt. unfold Getopt.long_has_args.
  remember (List.filter _ longopts) as ps eqn:Eps.
  assert (forall x, x ∈ ps -> x ∈ longopts) as Hsub
    by (subst ps; apply filter_subseteq).
  clear Eps. destruct ps as [|p0 ps']; [done|].
  case_bool_decide as Hin1.
  { intros [= <- <-]. apply Hsub in Hin1.
    unfold longopts in Hin1.
    repeat (apply elem_of_cons in Hin1 as [->|Hin1]);
      try (exfalso; apply Hopt; vm_compute; by repeat constructor);
      try (vm_compute; by repeat constructor).
    by apply elem_of_nil in Hin1. }
  case_bool_decide as Hin2.
  { intros [= <- <-]. apply Hsub in Hin2.
    unfold longopts in Hin2.
    repeat (apply elem_of_cons in Hin2 as [E|Hin2]);
      try (by apply elem_of_nil in Hin2).
    all: apply append_eq_inv in E as [Hend ->]; vm_compute in Hend; try discriminate Hend.
    all: vm_compute; by repeat constructor. }
  destruct ps' as [|? ?]; [|done].
  intros [= <- <-].
  assert (p0 ∈ longopts) as Hin by (apply Hsub; by left).
  unfold longopts in Hin.
  repeat (apply elem_of_cons in Hin as [->|Hin]);
    try (vm_compute; by repeat constructor).
  by apply elem_of_nil in Hin.
Qed.

(** Every option that [getopt] returns to [main] is one of its long
    options, under its full name. *)
Lemma getopt_loop_known args opts0 opts rest :
  known_opts opts0 ->
  Getopt.loop longopts opts0 args = inr (opts, rest) ->
  known_opts opts.
Proof.
  remember (length args) as n eqn:Hn. revert args Hn opts0.
  induction n as [n IH] using lt_wf_ind. intros args Hn opts0 Hk.
  destruct args as [|a0 args']; cbn [Getopt.loop].
  { by intros [= <- <-]. }
  destruct (_ && _); [|by intros [= <- <-]].
  destruct (String.eqb a0 "--"); [by intros [= <- <-]|].
  destruct (Py.startswith a0 "--"); [|done].
  assert (exists opt optarg,
            match Py.split_at "=" (Py.drop 2 a0) with
            | Some (o, v) => (o, Some v)
            | None => (Py.drop 2 a0, None)
            end = (opt, optarg) /\ "="%char ∉ chars opt) as (opt & optarg & -> & Hopt).
  { destruct (Py.split_at _ _) as [[o v]|] eqn:E.
    - exists o, (Some v). split; [done|]. by eapply split_at_no_char.
    - eexists _, None. split; [done|]. by apply split_at_none. }
  destruct (Getopt.long_has_args opt longopts) as [e|[b name]] eqn:El; [done|].
  apply long_has_args_known in El; [|done].
  assert (forall v, known_opts (opts0 ++ [("--" +:+ name, v)])) as Hk'.
  { intros v. apply Forall_app. split; [done|]. by apply Forall_singleton. }
  cbn in Hn.
  destruct b, optarg as [v|]; try done.
  - apply (IH (length args')); [lia|done|done].
  - destruct args' as [|v args'']; [done|].
    apply (IH (length args'')); [cbn in *; lia|done|done].
  - apply (IH (length args')); [lia|done|done].
Qed.

Lemma getopt_known args opts rest :
  Getopt.getopt args longopts = inr (opts, rest) -> known_opts opts.
Proof. apply getopt_loop_known. constructor. Qed.

Section MainRules.
Context `{Env}.

(** One turn of the loop over the options, for an option [getopt] can
    return: the turn goes on to the next option, or exits with status 1
    ([--version], [--help]), or [int] raises; the branch that returns -1 is
    never taken.  Nothing is done on the file system. *)
Lemma wp_set_opt a op val (Q : Exn + Flow -> World -> Prop) w :
  op ∈ option_names ->
  (forall a', Q (inr (Continue a')) w) ->
  (forall lg, Q (inl (SystemExit 1)) {| fs := fs w; trace := trace w; log := lg |}) ->
  Q (inl ValueError) w ->
  wp (set_opt a (op, val)) Q w.
Proof.
  intros Hop Hc He Hv.
  unfold option_names, longopts in Hop. cbn in Hop.
  repeat (apply elem_of_cons in Hop as [->|Hop]);
    [..|by apply elem_of_nil in Hop].
  all: unfold wp, set_opt; cbn; try apply Hc; try apply He.
  destruct (int_of_str val); cbn; [apply Hc|apply Hv].
Qed.

Lemma wp_set_opts opts a (Q : Exn + Flow -> World -> Prop) w :
  known_opts opts ->
  (forall a', Q (inr (Continue a')) w) ->
  (forall lg, Q (inl (SystemExit 1)) {| fs := fs w; trace := trace w; log := lg |}) ->
  Q (inl ValueError) w ->
  wp (set_opts opts a) Q w.
Proof.
  intros Hk Hc He Hv. revert a.
  induction opts as [|[op val] opts IH]; intros a; cbn [set_opts].
  - apply wp_ret, Hc.
  - apply Forall_cons in Hk as [Hop Hk]. cbn in Hop.
    apply wp_mbind, wp_set_opt; [done| |done|done].
    intros a'. by apply IH.
Qed.
End MainRules.


Section Completion.
Context `{Env}.

Lemma call_ok_mkdir p s :
  (p ∉ s -> os_mkdir_fails p s = false) -> Forall call_ok (mkdir_calls p s).
Proof.
  intros Hf. apply Forall_forall. intros e [Hp ->]%elem_of_mkdir_calls.
  by apply Hf.
Qed.

Lemma call_ok_assert ps s :
  Forall (fun p => p ∈ s) ps -> Forall call_ok (assert_calls ps s).
Proof.
  intros Hall. apply Forall_forall. intros e (p & -> & Hp)%elem_of_assert_calls.
  exists p. split; [done|]. cbn. by apply (proj1 (Forall_forall _ _) Hall).
Qed.

Lemma call_ok_index (tr : list (Call * FS)) l :
  map fst tr = map CVcfIndex l ->
  Forall (fun e => forall f, e.1 = CVcfIndex f -> is_Some (vcf_index f e.2)) tr ->
  Forall call_ok tr.
Proof.
  intros Htr Hall. apply Forall_forall. intros e He.
  destruct (elem_of_index_calls tr l e Htr He) as (f & Hf & _).
  unfold call_ok. rewrite Hf. by apply (proj1 (Forall_forall _ _) Hall e He).
Qed.

(** A run of the pipeline that returns has completed, and a run that
    raises never does so with [SystemExit]. *)
Lemma run_completes (a : Args) s lg :
  wp (run_baf_preprocess a)
    (fun r w' =>
       (forall c, r <> inl (SystemExit c)) /\
       (r = inr tt -> completed (trace w') (fs w')))
    {| fs := s; trace := []; log := lg |}.
Proof.
  unfold run_baf_preprocess. repeat wp_step.
  all: split; [done|intros E; try discriminate E].
  split.
  - repeat lazymatch goal with
           | |- Forall _ (_ ++ _) => apply Forall_app; split
           | |- Forall _ [] => apply Forall_nil_2
           | |- Forall _ [_] => apply Forall_singleton; unfold call_ok; cbn
           | |- Forall _ (mkdir_calls _ _) => by apply call_ok_mkdir
           | |- Forall _ (assert_calls _ _) => by apply call_ok_assert
           | |- Forall _ _ => by eapply call_ok_index
           end.
    all: try by eexists.
    all: try (eexists; by split).
    split; congruence.
  - eexists _, _, _, _. rewrite last_snoc. split_and!; [done|done|done].
Qed.
End Completion.

Section Script.
Context `{Env}.


End Script.

(** ** A concrete setting: nominal collaborators, complete inputs *)

(** Decides a closed statement by evaluation. *)
Ltac by_eval := apply (bool_decide_unpack _); by vm_compute.


(** C6 as it stands does not hold: with no alignment file, no alignment
    list and no barcode file given, the pileup directory is made and
    [pileup] is called. *)
Lemma pileup_runs_without_alignments :
  let tr := trace (@run_baf_preprocess Demo.nominal Demo.args_no_sam (boot Demo.fs0)).2 in
  sam_fn Demo.args_no_sam = None /\ sam_list_fn Demo.args_no_sam = None /\
  barcode_fn Demo.args_no_sam = None /\
  CMkdir "out/pileup" ∈ map fst tr /\
  KPileup ∈ kinds tr.
Proof. cbv zeta. split_and!; [done|done|done|by_eval|by_eval]. Qed.

Lemma event_at (tr : list (Call * FS)) k c :
  fst <$> tr !! k = Some c -> (c, snapshot tr k) ∈ tr.
Proof.
  unfold snapshot. destruct (tr !! k) as [[c' s]|] eqn:E; [|done].
  intros [= <-]. by eapply list_elem_of_lookup_2.
Qed.


Lemma event_at_lookup (tr : list (Call * FS)) k c :
  fst <$> tr !! k = Some c -> tr = take k tr ++ (c, snapshot tr k) :: drop (S k) tr.
Proof.
  unfold snapshot. destruct (tr !! k) as [[c' s]|] eqn:E; [|done].
  intros [= <-]. symmetry. by apply take_drop_middle.
Qed.

(** C2 where phasing leaves no file for chr5: the run ends in [OSError]. *)
Lemma merge_aborts_witness :
  (@run_baf_preprocess Demo.chr5_fails Demo.args (boot Demo.fs0)).1 = inl OSError.
Proof.
  destruct (@merge_needs_every_phased_file Demo.chr5_fails Demo.args Demo.fs0) as [_ H2].
  refine (proj1 (H2 DemoRun.ph (snapshot DemoRun.tr_chr5 58) (snapshot DemoRun.tr_chr5 59)
                    "out/phasing/s1_chr5.phased.vcf.gz" _ _ _ _)).
  - apply event_at. by_eval.
  - vm_cast_no_check (eq_refl (Some (snapshot DemoRun.tr_chr5 59))).
  - by_eval.
  - by_eval.
Defined.


(** C4 on the nominal run: the second retained chromosome is chr5. *)
Lemma phasing_lists_witness :
  ref_vcf_list DemoRun.ph !! 1%nat = Some (os_path_join "panel" ("chr5" +:+ ".genotypes.bcf")).
Proof.
  assert ((CRefPhasing DemoRun.ph, snapshot DemoRun.tr 58) ∈ DemoRun.tr) as Hin
    by (apply event_at; by_eval).
  destruct (@phasing_lists_aligned Demo.nominal Demo.args Demo.fs0 _ _ Hin)
    as (pd & out & lb & ss & res & s6 & Hpd & Hout & Hlb & _ & Hres & _ & _ & _ & Hal & _).
  injection Hpd as <-. injection Hres as <- _.
  destruct (Hal 1%nat "chr5" eq_refl) as (n & f & _ & _ & _ & Href & _).
  exact Href.
Defined.

(** C5 on the nominal run: the split file of chr1 is indexed before the
    phasing call. *)
Lemma indexed_before_phasing_witness :
  exists si, (CVcfIndex "out/phasing/s1_chr1.vcf.gz", si) ∈ take 58 DemoRun.tr.
Proof.
  assert (fst <$> DemoRun.tr !! 58%nat = Some (CRefPhasing DemoRun.ph)) as E by by_eval.
  destruct (@retained_files_indexed_before_phasing Demo.nominal Demo.args Demo.fs0
              _ _ _ _ (event_at_lookup _ _ _ E))
    as (fn & od & lb & ss & res & s6 & _ & _ & _ & Hidx).
  destruct (Hidx "out/phasing/s1_chr1.vcf.gz") as (si & Hsi & _); [by_eval|].
  by exists si.
Defined.

(** C6 on the nominal run. *)
Lemma pileup_after_checks_witness :
  panel_ready Demo.args (snapshot DemoRun.tr 51).
Proof.
  assert (exists pa, fst <$> DemoRun.tr !! 51%nat = Some (CPileup pa)) as [pa E]
    by (vm_compute; by eexists).
  exact (proj1 (proj2 (proj2
    (@pileup_runs_after_checked_paths Demo.nominal Demo.args Demo.fs0
       _ _ _ _ (event_at_lookup _ _ _ E))))).
Defined.



(** C9 for the labels "s1" and "s2". *)
Lemma label_paths_witness :
  NoDup (label_paths "out" "s1") /\
  forall p, p ∈ label_paths "out" "s1" -> p ∉ label_paths "out" "s2".
Proof.
  destruct (label_paths_distinct "out" "s1" "s2" eq_refl eq_refl) as (_ & Hnd & Hdis).
  split; [exact Hnd|]. apply Hdis. discriminate.
Defined.

(** * Further properties of the pipeline and of the command lines *)

Lemma stage_kinds_app tr1 tr2 :
  stage_kinds (tr1 ++ tr2) = stage_kinds tr1 ++ stage_kinds tr2.
Proof. unfold stage_kinds, kinds. by rewrite map_app, List.filter_app. Qed.

Lemma stage_kinds_mkdir p s : stage_kinds (mkdir_calls p s) = [].
Proof. unfold mkdir_calls. by case_bool_decide. Qed.

Lemma stage_kinds_assert ps s : stage_kinds (assert_calls ps s) = [].
Proof. induction ps as [|p ps IH]; [done|]. cbn. apply IH. Qed.

Lemma stage_kinds_index (tr : list (Call * FS)) l :
  map fst tr = map CVcfIndex l -> stage_kinds tr = replicate (length l) KVcfIndex.
Proof.
  revert l. induction tr as [|[c s] tr IH]; intros [|f l] E; try done.
  injection E as -> E. cbn. f_equal. by apply IH.
Qed.

Lemma retained_nil (res : SplitRes) :
  Forall (fun t => t.1.2 <= 0) res -> retained res = [].
Proof.
  unfold retained. induction 1 as [|t res Ht _ IH]; [done|].
  cbn. destruct (Z.ltb_spec 0 t.1.2); [lia|done].
Qed.

Section Calls.
Context `{Env}.

(** X1: the run calls [os.mkdir] only on a path that does not exist at
    that moment, and only on the output directory, its pileup directory and
    its phasing directory. *)
Theorem mkdir_only_missing_dirs (a : Args) (s : FS) :
  wp (run_baf_preprocess a)
    (fun _ w' =>
       forall p sx, (CMkdir p, sx) ∈ trace w' ->
         (p ∉ sx) /\
         exists out, out_dir a = Some out /\
                     (p = out \/ p = pileup_dir out \/ p = phasing_dir out))
    (boot s).
Proof.
  unfold run_baf_preprocess, boot. wp_run.
  all: intros qp qsx Hm; trace_inv Hm; injection Hm as -> ->.
  all: split; [done|]; eexists; split; [done|]; auto.
Qed.

(** X2: [vcf_add_genotype] is only called after [pileup] has returned and
    has left its VCF <out>/pileup/cellSNP.base.vcf.gz; that file and the
    phasing directory exist when it is called; it reads that file, writes
    <out>/<label>.genotype.vcf.gz, for the sample named by the label, with
    the chr prefix, sorted and unique. *)
Theorem genotyping_after_pileup (a : Args) (s : FS) :
  wp (run_baf_preprocess a)
    (fun _ w' =>
       forall i o smp cp srt u sx,
         (CVcfAddGenotype i o smp cp srt u, sx) ∈ trace w' ->
         exists out lb pa sp s1,
           out_dir a = Some out /\ label a = Some lb /\
           (CPileup pa, sp) ∈ trace w' /\ pileup pa sp = Some s1 /\
           i = os_path_join (p_out_dir pa) "cellSNP.base.vcf.gz" /\
           i ∈ s1 /\ i ∈ sx /\ phasing_dir out ∈ sx /\
           o = genotype_vcf_fn out lb /\ smp = lb /\
           cp = true /\ srt = true /\ u = true)
    (boot s).
Proof.
  unfold run_baf_preprocess, boot. wp_run.
  all: intros qi qo qsmp qcp qsrt qu qsx Hm; trace_inv Hm.
  all: injection Hm as -> -> -> -> -> -> ->.
  all: simplify_eq.
  all: eexists _, _, _, _, _;
    split_and!; [done|done|trace_mem|eassumption|done|done|in_fs|in_fs|done..].
Qed.

(** X3: when the split reports no chromosome with a variant, nothing is
    indexed, [ref_phasing] is called with three empty lists and [vcf_merge]
    with an empty list of inputs: the run does not stop for want of
    variants, and when it returns both calls have been made. *)
Theorem no_variants_empty_phasing (a : Args) (s : FS) :
  wp (run_baf_preprocess a)
    (fun r w' =>
       forall fn od lb cl ss res s6,
         (CVcfSplitChrom fn od lb cl, ss) ∈ trace w' ->
         vcf_split_chrom fn od lb cl ss = Some (res, s6) ->
         Forall (fun t => t.1.2 <= 0) res ->
         (forall f sx, (CVcfIndex f, sx) ∉ trace w') /\
         (forall ph sp, (CRefPhasing ph, sp) ∈ trace w' ->
            target_vcf_list ph = [] /\ ref_vcf_list ph = [] /\ out_prefix_list ph = []) /\
         (forall l o b sm, (CVcfMerge l o b, sm) ∈ trace w' -> l = []) /\
         (r = inr tt ->
            exists ph sp o sm, (CRefPhasing ph, sp) ∈ trace w' /\
                               (CVcfMerge [] o true, sm) ∈ trace w'))
    (boot s).
Proof.
  unfold run_baf_preprocess, boot. wp_run.
  all: intros qfn qod qlb qcl qss qres qs6 Hsp Hres Hz; trace_inv Hsp.
  all: injection Hsp as -> -> -> -> ->.
  all: rewrite Hres in *; simplify_eq.
  all: pose proof (retained_nil _ Hz) as Hnil.
  all: unfold target_vcf_list_of, valid_chroms_of in *; rewrite Hnil in *; cbn [map length] in *.
  all: try lia.
  all: match goal with Htr : map fst _ = [] |- _ => apply map_eq_nil in Htr; subst end.
  all: cbn [app] in *.
  all: split_and!.
  all: try (intros qf qsx Hm; by trace_inv Hm).
  all: try (intros qph qsp Hm; trace_inv Hm; by injection Hm as -> _).
  all: try (intros ql qo qb qsm Hm; trace_inv Hm; by injection Hm as -> _ _ _).
  all: try (intros E; discriminate E).
  all: intros _; eexists _, _, _, _; split; trace_mem.
Qed.

End Calls.






Section Indexed.
Context `{Env}.

End Indexed.

Ltac stage_norm :=
  repeat first
    [ rewrite stage_kinds_app
    | rewrite stage_kinds_mkdir
    | rewrite stage_kinds_assert
    | match goal with
      | Htr : map fst ?tr = map CVcfIndex _ |- _ => rewrite (stage_kinds_index tr _ Htr)
      end ];
  cbn [stage_kinds kinds map List.filter is_stage kind_of fst app];
  rewrite ?app_nil_r, <- ?app_assoc; cbn [app].

Section Stages.
Context `{Env}.

(** X5: apart from checks and [os.mkdir], the calls of a run are a prefix
    of: pileup, genotyping, split, one indexing for each target of phasing,
    phasing, merge; and all of that when the run returns. *)
Theorem stages_in_order (a : Args) (s : FS) :
  wp (run_baf_preprocess a)
    (fun r w' =>
       exists n, stage_kinds (trace w') `prefix_of` stages_of n /\
                 (r = inr tt -> stage_kinds (trace w') = stages_of n) /\
                 (forall ph sp, (CRefPhasing ph, sp) ∈ trace w' ->
                    length (target_vcf_list ph) = n))
    (boot s).
Proof.
  unfold run_baf_preprocess, boot. repeat wp_step.
  all: stage_norm.
  all: first
    [ lazymatch goal with
      | |- context [replicate ?m KVcfIndex] => exists m
      end
    | exists 0%nat ].
  all: split_and!;
    [ | intros E; first [discriminate E|reflexivity]
      | intros qph qsp Hm; trace_inv Hm; by injection Hm as -> _ ].
  all: unfold stages_of; cbn [app replicate].
  all: repeat first [ apply prefix_nil | apply prefix_cons | apply prefix_app
                    | reflexivity | apply prefix_app_r ].
Qed.

End Stages.

Section IndexLoop.
Context `{Env}.

(** The loop over [res] again, with what is known when [vcf_index] raises:
    the calls before went well, and the last one is the call that raised. *)
Lemma wp_retain_loop_fail res v0 t0
    (Q : Exn + (list string * list string) -> World -> Prop) w :
  (forall tr s', map fst tr = map CVcfIndex (target_vcf_list_of res) ->
     Forall (fun e => forall f, e.1 = CVcfIndex f -> is_Some (vcf_index f e.2)) tr ->
     Q (inr (v0 ++ valid_chroms_of res, t0 ++ target_vcf_list_of res))
       {| fs := s'; trace := trace w ++ tr; log := log w |}) ->
  (forall tr f sx, Forall call_ok tr ->
     Forall (fun e => kind_of e.1 = KVcfIndex) tr ->
     f ∈ target_vcf_list_of res -> vcf_index f sx = None ->
     Q (inl CollaboratorError)
       {| fs := sx; trace := trace w ++ tr ++ [(CVcfIndex f, sx)]; log := log w |}) ->
  wp (for_fold res retain (v0, t0)) Q w.
Proof.
  revert v0 t0 Q w. induction res as [|[[c n] f] res IH]; intros v0 t0 Q w Hok Hbad.
  - unfold wp; cbn. specialize (Hok [] (fs w) eq_refl (Forall_nil_2 _)).
    cbn in Hok. rewrite !app_nil_r in Hok. by destruct w.
  - cbn [for_fold]. apply wp_bind. unfold retain.
    unfold valid_chroms_of, target_vcf_list_of, retained in *.
    cbn [List.filter fst snd] in *.
    destruct (0 <? n)%Z eqn:En; cbn [map length take] in *.
    + apply wp_mbind, wp_collaborator.
      * intros s' Hs'. apply wp_ret. apply IH.
        -- intros tr s'' Htr Hall. cbn [fs trace log].
           specialize (Hok ((CVcfIndex f, fs w) :: tr) s'').
           rewrite <- !app_assoc. cbn [app]. apply Hok; [cbn; by f_equal|].
           constructor; [|done]. cbn. intros ? [= <-]. by rewrite Hs'.
        -- intros tr f' sx Hall Hk Hf' Hnone. cbn [fs trace log].
           specialize (Hbad ((CVcfIndex f, fs w) :: tr) f' sx).
           rewrite <- !app_assoc. cbn [app] in *. apply Hbad; [| |by right|done].
           ++ constructor; [|done]. unfold call_ok. cbn. by rewrite Hs'.
           ++ by constructor.
      * intros Hnone. specialize (Hbad [] f (fs w)).
        unfold after_call. cbn [app] in Hbad. apply Hbad; [done|done|by left|done].
    + apply wp_ret. by apply IH.
Qed.
End IndexLoop.

(** Symbolic execution that keeps what is known of a failed call. *)
Ltac wp_step_fail :=
  lazymatch goal with
  | |- wp (for_fold _ retain _) _ _ =>
      apply wp_retain_loop_fail; [intros ? ? ? ? | intros ? ? ? ? ? ? ?]; wp_simpl
  | |- _ => wp_step
  end.

Section Returns.
Context `{Env}.

(** X6: the run returns, having completed, when the label is set, the
    inputs and the 44 files of the panel exist, [os.mkdir] succeeds on a
    path that does not exist, [pileup] leaves its VCF, [ref_phasing] leaves
    a phased file for each prefix it was given, and the other collaborators
    return. *)
Theorem run_returns (a : Args) (s : FS) lb snp out :
  label a = Some lb -> lb <> EmptyString ->
  snp_vcf_fn a = Some snp -> snp ∈ s ->
  out_dir a = Some out ->
  panel_ready a s ->
  (forall p s0, p ∉ s0 -> os_mkdir_fails p s0 = false) ->
  (forall pa s0, exists s1, pileup pa s0 = Some s1 /\
                   os_path_join (p_out_dir pa) "cellSNP.base.vcf.gz" ∈ s1) ->
  (forall i o smp cp srt u s0, is_Some (vcf_add_genotype i o smp cp srt u s0)) ->
  (forall fn od l cl s0, is_Some (vcf_split_chrom fn od l cl s0)) ->
  (forall f s0, is_Some (vcf_index f s0)) ->
  (forall ph s0, exists s1, ref_phasing ph s0 = Some s1 /\
                   Forall (fun p => phased_vcf p ∈ s1) (out_prefix_list ph)) ->
  (forall l o b s0, is_Some (vcf_merge l o b s0)) ->
  wp (run_baf_preprocess a)
    (fun r w' => r = inr tt /\ completed (trace w') (fs w'))
    (boot s).
Proof.
  intros Hlb Hne Hsnp Hin Hout (g & e & pd & Hg & Hgin & He & Hein & Hpd & Hpdin & Hall)
         Hmk Hpile Hgeno Hsplit Hidx Hph Hmerge.
  cut (wp (run_baf_preprocess a) (fun r _ => r = inr tt) (boot s)).
  { pose proof (run_completes a s []) as Hc. unfold wp, boot in *.
    intros E. split; [done|]. by apply Hc. }
  unfold run_baf_preprocess, boot. repeat wp_step_fail. 
  all: simplify_eq.
  all: try done.
  all: exfalso.
  all: try match goal with
           | Hx : _ = None \/ _ = Some EmptyString |- _ => destruct Hx; by simplify_eq
           | Hf : os_mkdir_fails _ _ = true |- _ => rewrite Hmk in Hf by done; discriminate Hf
           | Hx : forall x, _ = Some x -> x ∉ _ |- _ =>
               eapply Hx; [done|]; in_fs
           | Hn : ?t = None |- _ =>
               assert (is_Some t) as [? E] by auto; rewrite E in Hn; discriminate Hn
           | Hn : pileup ?pa ?s0 = None |- _ =>
               destruct (Hpile pa s0) as (? & E & _); rewrite E in Hn; discriminate Hn
           | Hn : ref_phasing ?pa ?s0 = None |- _ =>
               destruct (Hph pa s0) as (? & E & _); rewrite E in Hn; discriminate Hn
           end.
  - (* a phased file is missing *)
    match goal with
    | Hr : ref_phasing ?ph ?s0 = Some _, Hk : _ !! _ = Some ?p, Hp : ?p ∉ _ |- _ =>
        destruct (Hph ph s0) as (s1 & E & Hf); rewrite E in Hr; injection Hr as <-;
        apply list_elem_of_lookup_2, list_elem_of_fmap in Hk as (q & -> & Hq);
        apply Hp, (proj1 (Forall_forall _ _) Hf q Hq)
    end.
  - (* the pileup VCF is missing *)
    match goal with
    | Hr : pileup ?pa ?s0 = Some _, Hx : forall x, _ = Some x -> x ∉ _ |- _ =>
        destruct (Hpile pa s0) as (s1 & E & Hf); rewrite E in Hr; injection Hr as <-;
        by eapply Hx
    end.
  - (* a file of the panel is missing *)
    match goal with
    | Hk : panel_files _ !! _ = Some ?p, Hp : ?p ∉ _ |- _ =>
        apply list_elem_of_lookup_2 in Hk;
        apply Hp, elem_of_union_r, (proj1 (Forall_forall _ _) Hall _ Hk)
    end.
Qed.
End Returns.


Section Failure.
Context `{Env}.

End Failure.

(** An option with its value as two arguments: the value is taken as it
    is, whatever it looks like. *)
Lemma getopt_loop_valued o v opts0 rest :
  o ∈ ["--label"; "--sam"; "--samlist"; "--barcode"; "--snpvcf"; "--outdir"; "--gmap";
       "--eagle"; "--paneldir"; "--cellTAG"; "--UMItag"; "--ncores"] ->
  Getopt.loop longopts opts0 (o :: v :: rest)
  = Getopt.loop longopts (opts0 ++ [(o, v)]) rest.
Proof.
  intros Ho.
  repeat (apply elem_of_cons in Ho as [->|Ho]); [..|by apply elem_of_nil in Ho].
  all: reflexivity.
Qed.

Lemma getopt_loop_flag o opts0 rest :
  o ∈ ["--smartseq"; "--bulk"; "--help"; "--version"] ->
  Getopt.loop longopts opts0 (o :: rest)
  = Getopt.loop longopts (opts0 ++ [(o, EmptyString)]) rest.
Proof.
  intros Ho.
  repeat (apply elem_of_cons in Ho as [->|Ho]); [..|by apply elem_of_nil in Ho].
  all: reflexivity.
Qed.

Lemma getopt_loop_opt_args o v opts0 rest :
  o ∈ ["--label"; "--sam"; "--samlist"; "--barcode"; "--snpvcf"; "--outdir"; "--gmap";
       "--eagle"; "--paneldir"; "--cellTAG"; "--UMItag"; "--ncores"] ->
  Getopt.loop longopts opts0 (opt_args o v ++ rest)
  = Getopt.loop longopts (opts0 ++ opt_pairs o v) rest.
Proof.
  intros Ho. destruct v as [x|]; cbn [opt_args opt_pairs app].
  - by apply getopt_loop_valued.
  - by rewrite app_nil_r.
Qed.

Section ReadBack.
Context `{Env}.

Lemma set_opts_app o1 o2 a w :
  set_opts (o1 ++ o2) a w
  = match set_opts o1 a w with
    | (inr (Continue a'), w') => set_opts o2 a' w'
    | other => other
    end.
Proof.
  revert a w. induction o1 as [|o o1 IH]; intros a w; [done|].
  cbn [app set_opts]. unfold mbind, M_bind, bind.
  destruct (set_opt a o w) as [[e|[a'|v]] w']; [done| |done].
  apply IH.
Qed.

Lemma set_opts_pairs x name v a w :
  (x, name) ∈ var_options ->
  set_opts (opt_pairs name v) a w = (inr (Continue (put_var x v a)), w).
Proof.
  intros Hx. unfold var_options in Hx.
  repeat (apply elem_of_cons in Hx as [[= -> ->]|Hx]); [..|by apply elem_of_nil in Hx].
  all: by destruct v.
Qed.

Lemma get_put_var_same x v b :
  get_var x (put_var x v b) = match v with Some z => Some z | None => get_var x b end.
Proof. by destruct v, x. Qed.

Lemma get_put_var_other x y v b : x <> y -> get_var y (put_var x v b) = get_var y b.
Proof. by destruct v, x, y. Qed.

Lemma cell_tag_put_var x v b : cell_tag (put_var x v b) = cell_tag b.
Proof. by destruct v, x. Qed.

Lemma umi_tag_put_var x v b : umi_tag (put_var x v b) = umi_tag b.
Proof. by destruct v, x. Qed.

Lemma ncores_put_var x v b : ncores (put_var x v b) = ncores b.
Proof. by destruct v, x. Qed.

Lemma mode_put_var x v b : mode (put_var x v b) = mode b.
Proof. by destruct v, x. Qed.

Lemma get_var_assign_tags x c u n m b : get_var x (assign_tags c u n m b) = get_var x b.
Proof. by destruct x. Qed.

Lemma Args_ext a b :
  (forall x, get_var x a = get_var x b) ->
  cell_tag a = cell_tag b -> umi_tag a = umi_tag b -> ncores a = ncores b ->
  mode a = mode b -> a = b.
Proof.
  intros Hg Hc Hu Hn Hm.
  pose proof (Hg v_label). pose proof (Hg v_sam_fn). pose proof (Hg v_sam_list_fn).
  pose proof (Hg v_barcode_fn). pose proof (Hg v_snp_vcf_fn). pose proof (Hg v_out_dir).
  pose proof (Hg v_gmap_fn). pose proof (Hg v_eagle_fn). pose proof (Hg v_panel_dir).
  destruct a, b. cbn in *. by subst.
Qed.

Lemma set_opts_cons_continue o opts a a' w :
  set_opt a o w = (inr (Continue a'), w) ->
  set_opts (o :: opts) a w = set_opts opts a' w.
Proof. intros E. cbn [set_opts]. unfold mbind, M_bind, bind. by rewrite E. Qed.

Lemma set_opts_app_continue o1 o2 a a' w :
  set_opts o1 a w = (inr (Continue a'), w) ->
  set_opts (o1 ++ o2) a w = set_opts o2 a' w.
Proof. intros E. by rewrite set_opts_app, E. Qed.

Lemma set_opt_ncores a n k :
  int_of_str n = Some k ->
  set_opt a ("--ncores", n)
  = ret (Continue (assign_tags (cell_tag a) (umi_tag a) k (mode a) a)).
Proof.
  intros Hn.
  assert (set_opt a ("--ncores", n)
          = match int_of_str n with
            | Some k => ret (Continue (assign_tags (cell_tag a) (umi_tag a) k (mode a) a))
            | None => raise ValueError
            end) as -> by reflexivity.
  by rewrite Hn.
Qed.

(** X8: a command line that spells out given arguments is read back as
    those arguments: [main] runs the pipeline on exactly them, whatever the
    values look like, and then logs the end of the run. *)
Theorem main_reads_back (prog : string) (a : Args) (n : string) (w : World) :
  int_of_str n = Some (ncores a) ->
  mode a ∈ ["10x"; "smartseq"; "bulk"] ->
  main (argv_of prog a n) w
  = (run_baf_preprocess a ;; info "All Done!" ;; ret None) w.
Proof.
  intros Hn Hm.
  assert (exists opts,
    Getopt.getopt (tail (argv_of prog a n)) longopts = inr (opts, []) /\
    set_opts opts defaults w = (inr (Continue a), w)) as (opts & Hg & Hs).
  { unfold argv_of, Getopt.getopt. cbn [tail app].
    rewrite !getopt_loop_valued by (vm_compute; repeat constructor).
    rewrite !getopt_loop_opt_args by (vm_compute; repeat constructor).
    match goal with
    | |- context [Getopt.loop longopts ?o (mode_args _)] => set (pre := o)
    end.
    assert (exists fl,
      Getopt.loop longopts pre (mode_args (mode a)) = inr (pre ++ fl, []) /\
      forall b, mode b = "10x" ->
        set_opts fl b w = (inr (Continue (assign_tags (cell_tag b) (umi_tag b) (ncores b)
                                            (mode a) b)), w)) as (fl & Hfl & Hmode).
    { clearbody pre.
      repeat (apply elem_of_cons in Hm as [Hm|Hm]); [..|by apply elem_of_nil in Hm].
      all: rewrite Hm; cbn [mode_args String.eqb Ascii.eqb Bool.eqb].
      - exists []. rewrite app_nil_r. split; [done|].
        intros b Hb. cbn. rewrite <- Hb. by destruct b.
      - exists [("--smartseq", EmptyString)].
        rewrite getopt_loop_flag by (vm_compute; repeat constructor). split; [done|].
        by intros b Hb.
      - exists [("--bulk", EmptyString)].
        rewrite getopt_loop_flag by (vm_compute; repeat constructor). split; [done|].
        by intros b Hb. }
    eexists. split; [exact Hfl|].
    rewrite set_opts_app. subst pre.
    rewrite <- !app_assoc. cbn [app].
    erewrite set_opts_cons_continue by reflexivity.
    erewrite set_opts_cons_continue by reflexivity.
    erewrite set_opts_cons_continue by (by rewrite (set_opt_ncores _ _ _ Hn)).
    repeat (erewrite set_opts_app_continue
              by (eapply set_opts_pairs; unfold var_options;
                  repeat first [apply list_elem_of_here | apply list_elem_of_further])).
    erewrite set_opts_pairs
      by (unfold var_options;
          repeat first [apply list_elem_of_here | apply list_elem_of_further]).
    cbn [assign_tags cell_tag umi_tag ncores mode defaults].
    rewrite Hmode by (by rewrite !mode_put_var).
    do 2 f_equal. f_equal.
    apply Args_ext; cbn [assign_tags cell_tag umi_tag ncores mode];
      rewrite ?cell_tag_put_var, ?umi_tag_put_var, ?ncores_put_var; try done.
    intros x.
    transitivity (get_var x
      (put_var v_panel_dir (panel_dir a) (put_var v_eagle_fn (eagle_fn a)
        (put_var v_gmap_fn (gmap_fn a) (put_var v_out_dir (out_dir a)
          (put_var v_snp_vcf_fn (snp_vcf_fn a) (put_var v_barcode_fn (barcode_fn a)
            (put_var v_sam_list_fn (sam_list_fn a) (put_var v_sam_fn (sam_fn a)
              (put_var v_label (label a) defaults)))))))))).
    { rewrite get_var_assign_tags.
      by destruct x;
        repeat first [ rewrite get_put_var_same | rewrite get_put_var_other by done
                     | rewrite get_var_assign_tags ]. }
    destruct x; repeat first [ rewrite get_put_var_same | rewrite get_put_var_other by done ];
      cbn [get_var defaults label sam_fn sam_list_fn barcode_fn snp_vcf_fn out_dir gmap_fn
             eagle_fn panel_dir]; by case_match. }
  unfold main. rewrite Hg.
  assert ((length (argv_of prog a n) <? 2)%nat = false) as -> by done.
  unfold mbind, M_bind, bind at 1 2 3. cbn [ret]. by rewrite Hs.
Qed.
End ReadBack.

Lemma last_cons_default {A} (x : A) l :
  last (x :: l) = match last l with Some y => Some y | None => Some x end.
Proof.
  destruct l as [|y l]; [done|]. change (last (x :: y :: l)) with (last (y :: l)).
  destruct (last (y :: l)) eqn:E; [done|]. by apply last_None in E.
Qed.

Lemma last_value_cons name op val opts :
  last_value name ((op, val) :: opts)
  = match last_value name opts with
    | Some v => Some v
    | None => if String.eqb op name then Some val else None
    end.
Proof.
  unfold last_value. cbn [List.filter fst].
  destruct (String.eqb op name); [|by destruct (last _)].
  cbn [map snd]. apply last_cons_default.
Qed.

Lemma last_mode_cons op val opts :
  last_mode ((op, val) :: opts)
  = match last_mode opts with
    | Some m => Some m
    | None => flag_mode op
    end.
Proof.
  unfold last_mode. cbn [omap list_omap fst].
  destruct (flag_mode op); [|by destruct (last _)].
  apply last_cons_default.
Qed.

Section LastWins.
Context `{Env}.

(** What one turn of the loop leaves in the variables, for an option
    [getopt] can return. *)
Lemma set_opt_vars a op val w a' w' :
  op ∈ option_names ->
  set_opt a (op, val) w = (inr (Continue a'), w') ->
  (forall x name, (x, name) ∈ var_options ->
     get_var x a' = if String.eqb op name then Some val else get_var x a) /\
  cell_tag a' = (if String.eqb op "--cellTAG" then val else cell_tag a) /\
  umi_tag a' = (if String.eqb op "--UMItag" then val else umi_tag a) /\
  mode a' = default (mode a) (flag_mode op) /\
  (op <> "--ncores" -> ncores a' = ncores a) /\
  (op = "--ncores" -> int_of_str val = Some (ncores a')).
Proof.
  intros Hop.
  let t := eval vm_compute in option_names in change option_names with t in Hop.
  repeat (apply elem_of_cons in Hop as [->|Hop]); [..|by apply elem_of_nil in Hop].
  14: { assert (set_opt a ("--ncores", val)
                = match int_of_str val with
                  | Some k => ret (Continue (assign_tags (cell_tag a) (umi_tag a) k (mode a) a))
                  | None => raise ValueError
                  end) as -> by reflexivity.
        destruct (int_of_str val) as [k|]; [|done]. intros [= <- <-].
        split_and!; try done.
        intros x name Hx. unfold var_options in Hx.
        repeat (apply elem_of_cons in Hx as [[= -> ->]|Hx]); [..|by apply elem_of_nil in Hx].
        all: done. }
  all: lazymatch goal with
       | |- set_opt ?a ?o ?w = _ -> _ =>
           let r := eval vm_compute in (set_opt a o w) in
           change (set_opt a o w) with r
       end.
  all: intros [= <- <-] || (intros E; discriminate E).
  all: split_and!; try done.
  all: intros x name Hx; unfold var_options in Hx.
  all: repeat (apply elem_of_cons in Hx as [[= -> ->]|Hx]); [..|by apply elem_of_nil in Hx].
  all: done.
Qed.


(** X9: when the loop over the options ends without exit, each variable
    holds the value given with the last occurrence of its option, or what
    it held before when the option does not occur; the mode is that of the
    last of [--smartseq] and [--bulk]. *)
Theorem later_option_wins (opts : list (string * string)) (a0 : Args) (w : World) :
  known_opts opts ->
  wp (set_opts opts a0)
    (fun r _ =>
       forall a, r = inr (Continue a) ->
         (forall x name, (x, name) ∈ var_options ->
            get_var x a = match last_value name opts with
                      | Some v => Some v
                      | None => get_var x a0
                      end) /\
         cell_tag a = default (cell_tag a0) (last_value "--cellTAG" opts) /\
         umi_tag a = default (umi_tag a0) (last_value "--UMItag" opts) /\
         mode a = default (mode a0) (last_mode opts) /\
         match last_value "--ncores" opts with
         | Some v => int_of_str v = Some (ncores a)
         | None => ncores a = ncores a0
         end)
    w.
Proof.
  intros Hk. revert a0 w.
  induction opts as [|[op val] opts IH]; intros a0 w; cbn [set_opts].
  { apply wp_ret. by intros a [= <-]. }
  apply Forall_cons in Hk as [Hop Hk]. change ((op, val).1) with op in Hop.
  specialize (IH Hk).
  unfold wp, mbind, M_bind, bind in *.
  destruct (set_opt a0 (op, val) w) as [[e|[a'|v]] w'] eqn:E; cbn [fst snd]; [done| |done].
  apply (set_opt_vars _ _ _ _ _ _ Hop) in E as (Hv & Hc & Hu & Hm & Hn1 & Hn2).
  intros a Ha. destruct (IH a' w' a Ha) as (Iv & Ic & Iu & Im & In).
  rewrite !last_value_cons, last_mode_cons.
  split_and!.
  - intros x name Hx. rewrite (Iv x name Hx), last_value_cons.
    destruct (last_value name opts); [done|]. rewrite (Hv x name Hx).
    by destruct (String.eqb op name).
  - rewrite Ic. destruct (last_value "--cellTAG" opts); [done|].
    cbn. rewrite Hc. by destruct (String.eqb op "--cellTAG").
  - rewrite Iu. destruct (last_value "--UMItag" opts); [done|].
    cbn. rewrite Hu. by destruct (String.eqb op "--UMItag").
  - rewrite Im. destruct (last_mode opts); [done|]. cbn. by rewrite Hm.
  - destruct (last_value "--ncores" opts); [done|].
    destruct (String.eqb_spec op "--ncores") as [->|Hne].
    + rewrite In. by apply Hn2.
    + rewrite In. by apply Hn1.
Qed.
End LastWins.

(** Evaluates one turn of the loop over the options, for a given option. *)
Ltac eval_set_opt :=
  unfold wp at 1; cbv beta;
  lazymatch goal with
  | |- context [set_opt ?a ?o ?w] =>
      let r := eval vm_compute in (set_opt a o w) in
      change (set_opt a o w) with r
  end;
  cbn [fst snd].

Section Options.
Context `{Env}.

(** The loop over the options when one of them is [--help] or
    [--version]: the run ends there, or earlier at an [--ncores] that is no
    integer, and nothing is done on the file system. *)
Lemma wp_set_opts_exit opts a (Q : Exn + Flow -> World -> Prop) w :
  known_opts opts ->
  (exists v, ("--help", v) ∈ opts \/ ("--version", v) ∈ opts) ->
  (forall lg, (LogUsage ∈ lg \/ LogError VERSION ∈ lg) ->
     Q (inl (SystemExit 1)) {| fs := fs w; trace := trace w; log := lg |}) ->
  Q (inl ValueError) w ->
  wp (set_opts opts a) Q w.
Proof.
  intros Hk Hex He Hv. revert a.
  induction opts as [|[op val] opts IH]; intros a; cbn [set_opts].
  - destruct Hex as [v [Hin|Hin]]; by apply elem_of_nil in Hin.
  - apply Forall_cons in Hk as [Hop Hk]. change ((op, val).1) with op in Hop.
    assert (exists v, ("--help", v) ∈ opts \/ ("--version", v) ∈ opts \/
                       op = "--help" \/ op = "--version") as Hex'.
    { destruct Hex as [v [Hin|Hin]]; exists v;
        apply elem_of_cons in Hin as [Hin|Hin]; simplify_eq; auto. }
    clear Hex. apply wp_mbind.
    let t := eval vm_compute in option_names in change option_names with t in Hop.
    repeat (apply elem_of_cons in Hop as [->|Hop]); [..|by apply elem_of_nil in Hop].
    14: { unfold wp at 1, set_opt; cbn. destruct (int_of_str val); cbn; [|done].
          apply IH; [done|].
          destruct Hex' as [v [?|[?|[?|?]]]]; try discriminate; exists v; auto. }
    all: eval_set_opt.
    all: try (apply (He (log w ++ [LogUsage])); left; apply elem_of_app; right; by left).
    all: try (apply (He (log w ++ [LogError VERSION])); right; apply elem_of_app; right;
              by left).
    all: apply IH; [done|].
    all: destruct Hex' as [v [?|[?|[?|?]]]]; try discriminate; exists v; auto.
Qed.


(** X10: with [--help] or [--version] among the options, [main] exits with
    status 1 after writing the usage or the version (or raises earlier on
    an [--ncores] that is no integer): the pipeline is not started and the
    file system is untouched. *)
Theorem help_or_version_exits (argv : list string) (s : FS) opts rest :
  Getopt.getopt (tail argv) longopts = inr (opts, rest) ->
  (exists v, ("--help", v) ∈ opts \/ ("--version", v) ∈ opts) ->
  wp (main argv)
    (fun r w' =>
       (r = inl (SystemExit 1) \/ r = inl ValueError) /\
       exit_status r = 1 /\ trace w' = [] /\ fs w' = s /\
       (r = inl (SystemExit 1) -> LogUsage ∈ log w' \/ LogError VERSION ∈ log w'))
    (boot s).
Proof.
  intros Hg Hex. unfold main, boot.
  apply wp_mbind.
  destruct (length argv <? 2)%nat.
  { apply wp_mbind, wp_logged. wp_simpl. apply wp_raise.
    split_and!; [by left|done|done|done|]. intros _. left. by left. }
  apply wp_ret. wp_simpl. apply wp_mbind. rewrite Hg. apply wp_ret. wp_simpl.
  apply getopt_known in Hg.
  apply wp_mbind, wp_set_opts_exit; [done|done| |].
  - intros lg Hlg. by split_and!; [left|..].
  - split_and!; [by right|done|done|done|done].
Qed.

(** X12: [main] never returns a value: the branch for an invalid option,
    whose [return(-1)] the script would drop, is never taken, since [getopt]
    only returns the options declared. *)
Theorem main_returns_no_value (argv : list string) (w : World) :
  wp (main argv) (fun r _ => forall v, r <> inr (Some v)) w.
Proof.
  unfold main.
  apply wp_mbind.
  destruct (length argv <? 2)%nat.
  { apply wp_mbind, wp_logged. wp_simpl. by apply wp_raise. }
  apply wp_ret. wp_simpl. apply wp_mbind.
  destruct (Getopt.getopt (tail argv) longopts) as [e|[opts rest]] eqn:Hg.
  { by apply wp_raise. }
  apply wp_ret. wp_simpl. apply getopt_known in Hg.
  apply wp_mbind, wp_set_opts; [done| |done|done].
  intros a. apply wp_mbind.
  unfold wp. destruct (run_baf_preprocess a w) as [[e|[]] w1]; [done|]. cbn.
  by repeat (apply wp_mbind || apply wp_logged || apply wp_ret; wp_simpl).
Qed.

End Options.

Lemma nth_lookup_string (l : list string) k x :
  l !! k = Some x -> nth k l EmptyString = x.
Proof. revert k. induction l as [|y l IH]; intros [|k]; cbn; try done; [by intros [= ->]|apply IH]. Qed.

Section Dispatch.
Context `{Xcltk.Toolkit}.

(** X13: with the word of a sub-command as first argument, the command
    line starts that sub-command, once, on the whole argument list; it
    writes nothing itself and ends as the sub-command ends. *)
Theorem command_starts_its_handler (argv : list string) (st : Xcltk.State) c :
  argv !! 1%nat = Some (Xcltk.word c) ->
  Xcltk.started (Xcltk.main argv st).2 = Xcltk.started st ++ [(c, argv)] /\
  ((Xcltk.main argv st).1, Xcltk.stderr (Xcltk.main argv st).2)
  = Xcltk.run_command c argv (Xcltk.stderr st).
Proof.
  intros Hc. unfold Xcltk.main.
  assert ((length argv <? 2)%nat = false) as ->.
  { apply Nat.ltb_ge. apply lookup_lt_Some in Hc. lia. }
  rewrite (nth_lookup_string _ _ _ Hc).
  destruct c; cbn [Xcltk.word String.eqb Ascii.eqb Bool.eqb]; unfold Xcltk.start;
    by destruct (Xcltk.run_command _ argv (Xcltk.stderr st)).
Qed.

(** X14: with any other first argument no sub-command is started and the
    command line exits with a non-zero status after one text on standard
    error: status 1 and the usage without argument, 3 and the usage for
    [-h] and [--help], 3 and the version for [-V] and [--version], 5 and
    an error naming the word otherwise (words are compared as they are). *)
Theorem other_words_start_nothing (argv : list string) (st : Xcltk.State) :
  (forall c, argv !! 1%nat <> Some (Xcltk.word c)) ->
  Xcltk.started (Xcltk.main argv st).2 = Xcltk.started st /\
  exists code msg,
    (Xcltk.main argv st).1 = inl (SystemExit code) /\
    Xcltk.stderr (Xcltk.main argv st).2 = Xcltk.stderr st ++ [msg] /\
    match argv !! 1%nat with
    | None => code = 1 /\ msg = Xcltk.usage_msg
    | Some cmd =>
        if bool_decide (cmd ∈ ["-h"; "--help"]) then code = 3 /\ msg = Xcltk.usage_msg
        else if bool_decide (cmd ∈ ["-V"; "--version"])
             then code = 3 /\ msg = Xcltk.VERSION +:+ Xcltk.nl
             else code = 5 /\
                  msg = "Error: wrong command '" +:+ cmd +:+ "'" +:+ Xcltk.nl
    end.
Proof.
  intros Hno. unfold Xcltk.main.
  destruct (argv !! 1%nat) as [cmd|] eqn:E.
  - assert ((length argv <? 2)%nat = false) as ->.
    { apply Nat.ltb_ge. apply lookup_lt_Some in E. lia. }
    rewrite (nth_lookup_string _ _ _ E).
    assert (forall c, cmd <> Xcltk.word c) as Hw by (intros c ->; by apply (Hno c)).
    destruct (String.eqb_spec cmd "allelefc") as [->|_]; [by destruct (Hw Xcltk.allelefc)|].
    destruct (String.eqb_spec cmd "baf") as [->|_]; [by destruct (Hw Xcltk.baf)|].
    destruct (String.eqb_spec cmd "fixref") as [->|_]; [by destruct (Hw Xcltk.fixref)|].
    destruct (String.eqb_spec cmd "rpc") as [->|_]; [by destruct (Hw Xcltk.rpc)|].
    destruct (String.eqb_spec cmd "basefc") as [->|_]; [by destruct (Hw Xcltk.basefc)|].
    destruct (String.eqb_spec cmd "convert") as [->|_]; [by destruct (Hw Xcltk.convert)|].
    destruct (String.eqb_spec cmd "-h") as [->|Hh]; [split; [done|]; by eexists _, _|].
    destruct (String.eqb_spec cmd "--help") as [->|Hhelp]; [split; [done|]; by eexists _, _|].
    rewrite bool_decide_eq_false_2
      by (rewrite !elem_of_cons, elem_of_nil; intros [?|[?|[]]]; done).
    destruct (String.eqb_spec cmd "-V") as [->|HV]; [split; [done|]; by eexists _, _|].
    destruct (String.eqb_spec cmd "--version") as [->|Hver];
      [split; [done|]; by eexists _, _|].
    rewrite bool_decide_eq_false_2
      by (rewrite !elem_of_cons, elem_of_nil; intros [?|[?|[]]]; done).
    cbn [orb]. split; [done|]. by eexists _, _.
  - assert ((length argv <? 2)%nat = true) as ->.
    { apply Nat.ltb_lt. apply lookup_ge_None in E. lia. }
    split; [done|]. by eexists _, _.
Qed.
End Dispatch.

(** X6 on the nominal run. *)
Lemma run_returns_witness :
  (@run_baf_preprocess Demo.nominal Demo.args (boot Demo.fs0)).1 = inr tt.
Proof.
  refine (proj1 (@run_returns Demo.nominal Demo.args Demo.fs0 "s1" "in/snp.vcf" "out"
                   eq_refl _ eq_refl _ eq_refl _ _ _ _ _ _ _ _)).
  - discriminate.
  - by_eval.
  - exists "in/gmap_hg38.txt.gz", "in/eagle", "panel".
    split_and!; [done|by_eval|done|by_eval|done|by_eval|by_eval].
  - intros p s0 Hp. by apply bool_decide_eq_false_2.
  - intros pa s0. eexists. split; [reflexivity|].
    by apply elem_of_union_l, elem_of_singleton.
  - intros. by eexists.
  - intros. by eexists.
  - intros. by eexists.
  - intros ph s0. eexists. split; [reflexivity|].
    apply Forall_forall. intros p Hp.
    by apply elem_of_union_l, elem_of_list_to_set, list_elem_of_fmap_2.
  - intros. by eexists.
Defined.

(** X10 for [baf.py --label s1 --help]. *)
Lemma help_exits_witness :
  exit_status (@main Demo.nominal Sample.argv_help (boot Demo.fs0)).1 = 1.
Proof.
  refine (proj1 (proj2 (@help_or_version_exits Demo.nominal Sample.argv_help Demo.fs0
                          [("--label", "s1"); ("--help", EmptyString)] [] eq_refl _))).
  exists EmptyString. left. by_eval.
Defined.


(** X8 for the arguments of the nominal run. *)
Lemma main_reads_back_witness :
  @main Demo.nominal (argv_of "baf.py" Demo.args "1") (boot Demo.fs0)
  = (@run_baf_preprocess Demo.nominal Demo.args ;; info "All Done!" ;; ret None)
      (boot Demo.fs0).
Proof.
  refine (@main_reads_back Demo.nominal "baf.py" Demo.args "1" (boot Demo.fs0) eq_refl _).
  by_eval.
Defined.

(** X9 for a label given twice, around [--bulk]. *)
Lemma later_option_witness :
  exists a, (@set_opts Demo.nominal Sample.opts_twice defaults (boot ∅)).1
            = inr (Continue a) /\
            label a = Some "b" /\ mode a = "bulk".
Proof.
  assert (known_opts Sample.opts_twice) as Hk by by_eval.
  pose proof (@later_option_wins Demo.nominal Sample.opts_twice defaults (boot ∅) Hk) as Hw.
  unfold wp in Hw.
  destruct (@set_opts Demo.nominal Sample.opts_twice defaults (boot ∅)) as [[e|[a|v]] w']
    eqn:E; try (by vm_compute in E).
  exists a. split; [done|].
  destruct (Hw a eq_refl) as (Hv & _ & _ & Hm & _).
  split; [|exact Hm].
  refine (Hv v_label "--label" _). unfold var_options. by left.
Defined.

(** X13 for [xcltk baf --label s1]. *)
Lemma command_starts_witness :
  Xcltk.started (@Xcltk.main Sample.toolkit ["xcltk"; "baf"; "--label"; "s1"] Sample.st0).2
  = [(Xcltk.baf, ["xcltk"; "baf"; "--label"; "s1"])].
Proof.
  exact (proj1 (@command_starts_its_handler Sample.toolkit
                  ["xcltk"; "baf"; "--label"; "s1"] Sample.st0 Xcltk.baf eq_refl)).
Defined.

(** X14 for [xcltk BAF]. *)
Lemma other_words_witness :
  Xcltk.started (@Xcltk.main Sample.toolkit ["xcltk"; "BAF"] Sample.st0).2 = [].
Proof.
  refine (proj1 (@other_words_start_nothing Sample.toolkit ["xcltk"; "BAF"] Sample.st0 _)).
  by intros [].
Defined.

(** X3 on a run without variants. *)
Lemma no_variants_witness :
  exists ph sp o sm,
    (CRefPhasing ph, sp) ∈ Sample.tr_no_variants /\
    (CVcfMerge [] o true, sm) ∈ Sample.tr_no_variants.
Proof.
  assert ((CVcfSplitChrom (genotype_vcf_fn "out" "s1") (phasing_dir "out") "s1" chrom_list,
           snapshot Sample.tr_no_variants 55) ∈ Sample.tr_no_variants) as Hin
    by (apply event_at; by_eval).
  destruct (@no_variants_empty_phasing Sample.no_variants Demo.args Demo.fs0
              _ _ _ _ _ _ _ Hin eq_refl) as (_ & _ & _ & Hm).
  - by_eval.
  - apply Hm. by vm_compute.
Defined.

(** X5 on the nominal run. *)
Lemma stages_in_order_witness :
  exists n, stage_kinds DemoRun.tr = stages_of n.
Proof.
  destruct (@stages_in_order Demo.nominal Demo.args Demo.fs0) as (n & _ & Heq & _).
  exists n. apply Heq. by vm_compute.
Defined.


